(** * Verification of the IRC video bot pipeline (src/bot.py)

    A shallow embedding of [VideoBot]: the URL extractor, the job queue,
    the download-and-encode job and the worker loop, followed by the
    properties of the specification that were checked against it. *)

From Stdlib Require Import List NArith ZArith Arith Lia Bool String Ascii Sorted.
Import ListNotations.


(** ** Text

    A Python [str] is a sequence of Unicode code points. *)

Definition char := N.
Definition str := list char.

Definition cp (s : string) : str :=
  map N_of_ascii (list_ascii_of_string s).

Definition str_eq_dec : forall a b : str, {a = b} + {a <> b} :=
  list_eq_dec N.eq_dec.

Fixpoint str_eqb (a b : str) : bool :=
  match a, b with
  | [], [] => true
  | x :: a', y :: b' => (x =? y)%N && str_eqb a' b'
  | _, _ => false
  end.

(** The Unicode character database that CPython consults for code points
    outside ASCII is not part of the repository: it is a parameter. *)
Record UnicodeDB := {
  uni_alnum : char -> bool;    (* Py_UNICODE_ISALNUM  *)
  uni_decimal : char -> bool;  (* Py_UNICODE_ISDECIMAL *)
  uni_space : char -> bool     (* Py_UNICODE_ISSPACE  *)
}.

(** A database that knows no character beyond ASCII. *)
Definition ascii_db : UnicodeDB :=
  {| uni_alnum := fun _ => false;
     uni_decimal := fun _ => false;
     uni_space := fun _ => false |}.

Definition between (lo hi c : N) : bool := (lo <=? c)%N && (c <=? hi)%N.

Definition ascii_digit (c : char) : bool := between 48 57 c.
Definition ascii_alpha (c : char) : bool := between 65 90 c || between 97 122 c.

(** [\d], [\w] and [str.isspace] of a Python 3 [str] pattern. *)
Definition re_digit (db : UnicodeDB) (c : char) : bool :=
  if (c <? 128)%N then ascii_digit c else uni_decimal db c.

Definition re_word (db : UnicodeDB) (c : char) : bool :=
  if (c <? 128)%N then ascii_alpha c || ascii_digit c || (c =? 95)%N
  else uni_alnum db c.

Definition py_isspace (db : UnicodeDB) (c : char) : bool :=
  if (c <? 128)%N then between 9 13 c || between 28 31 c || (c =? 32)%N
  else uni_space db c.

(** ** Regular expressions

    The fragment of [re] syntax that bot.py uses: literal text, character
    sets, concatenation, the greedy [?] and the greedy [+] over a set. *)

Inductive cset :=
| CWord                       (* \w *)
| CDigit                      (* \d *)
| CChar (c : char)
| CUnion (a b : cset)
| CNot (a : cset).            (* [^...] *)

Inductive regex :=
| Str (l : str)
| Cls (c : cset)
| Cat (a b : regex)
| Opt (a : regex)
| Many1 (c : cset).

Fixpoint strip_prefix (l s : str) : option str :=
  match l, s with
  | [], _ => Some s
  | x :: l', y :: s' => if (x =? y)%N then strip_prefix l' s' else None
  | _ :: _, [] => None
  end.

Section Regex.
Variable db : UnicodeDB.

Fixpoint in_cset (c : cset) (x : char) : bool :=
  match c with
  | CWord => re_word db x
  | CDigit => re_digit db x
  | CChar y => (x =? y)%N
  | CUnion a b => in_cset a x || in_cset b x
  | CNot a => negb (in_cset a x)
  end.

(** Backtracking matcher in continuation-passing style; a position in the
    subject is the suffix that starts there. *)
Fixpoint many (c : cset) (s : str) (k : str -> option str) : option str :=
  match s with
  | x :: rest =>
      if in_cset c x then
        match many c rest k with
        | Some y => Some y
        | None => k s
        end
      else k s
  | [] => k s
  end.

Fixpoint rmatch (r : regex) (s : str) (k : str -> option str) : option str :=
  match r with
  | Str l => match strip_prefix l s with Some rest => k rest | None => None end
  | Cls c =>
      match s with
      | x :: rest => if in_cset c x then k rest else None
      | [] => None
      end
  | Cat a b => rmatch a s (fun rest => rmatch b rest k)
  | Opt a => match rmatch a s k with Some y => Some y | None => k s end
  | Many1 c =>
      match s with
      | x :: rest => if in_cset c x then many c rest k else None
      | [] => None
      end
  end.

(** The match that starts at the head of [s]: the suffix left after it. *)
Definition match_at (r : regex) (s : str) : option str := rmatch r s Some.

Definition at_end (s : str) : option str :=
  match s with [] => Some [] | _ :: _ => None end.

(** [re.fullmatch(r, s) is not None] *)
Definition fullmatch (r : regex) (s : str) : bool :=
  match rmatch r s at_end with Some _ => true | None => false end.

(** [re.findall(r, s)] for a pattern without capturing groups: scan left
    to right, keep the text of each match and resume after it.  [skip]
    counts the characters of the last match still to be passed. *)
Fixpoint scan (r : regex) (s : str) (skip : nat) : list str :=
  match s with
  | [] =>
      match skip, match_at r [] with
      | O, Some _ => [[]]
      | _, _ => []
      end
  | _ :: s' =>
      match skip with
      | S n => scan r s' n
      | O =>
          match match_at r s with
          | Some rest =>
              let len := List.length s - List.length rest in
              firstn len s :: scan r s' (len - 1)
          | None => scan r s' 0
          end
      end
  end.

Definition findall (r : regex) (s : str) : list str := scan r s 0.

(** [re.sub(class, repl, s)] for a one-character class: every character
    of the class is replaced, the others are kept. *)
Definition sub_cset (c : cset) (repl : char) (s : str) : str :=
  map (fun x => if in_cset c x then repl else x) s.

(** [needle in hay] *)
Fixpoint contains (needle hay : str) : bool :=
  match strip_prefix needle hay with
  | Some _ => true
  | None => match hay with [] => false | _ :: hay' => contains needle hay' end
  end.

(** ** URL extractor *)

Definition word_or_hyphen : cset := CUnion CWord (CChar 45%N).        (* [\w-] *)

Definition opt_s : regex := Opt (Str (cp "s")).                     (* s? *)
Definition opt_www : regex := Opt (Str (cp "www.")).                (* (?:www\.)? *)

Definition http_host (www : bool) (rest : regex) : regex :=
  Cat (Str (cp "http")) (Cat opt_s (Cat (Str (cp "://"))
    (if www then Cat opt_www rest else rest))).

(* r'https?://(?:www\.)?youtube\.com/watch\?v=[\w-]+' *)
Definition pat_youtube : regex :=
  http_host true (Cat (Str (cp "youtube.com/watch?v=")) (Many1 word_or_hyphen)).
(* r'https?://youtu\.be/[\w-]+' *)
Definition pat_youtu_be : regex :=
  http_host false (Cat (Str (cp "youtu.be/")) (Many1 word_or_hyphen)).
(* r'https?://(?:www\.)?vimeo\.com/\d+' *)
Definition pat_vimeo : regex :=
  http_host true (Cat (Str (cp "vimeo.com/")) (Many1 CDigit)).
(* r'https?://(?:www\.)?dailymotion\.com/video/[\w-]+' *)
Definition pat_dailymotion : regex :=
  http_host true (Cat (Str (cp "dailymotion.com/video/")) (Many1 word_or_hyphen)).
(* r'https?://(?:www\.)?twitch\.tv/videos/\d+' *)
Definition pat_twitch : regex :=
  http_host true (Cat (Str (cp "twitch.tv/videos/")) (Many1 CDigit)).

Definition url_patterns : list regex :=
  [pat_youtube; pat_youtu_be; pat_vimeo; pat_dailymotion; pat_twitch].

(** The loop of [extract_video_urls] over a list of patterns. *)
Definition extract_with (patterns : list regex) (message : str) : list str :=
  fold_left (fun urls pattern => urls ++ findall pattern message) patterns [].

Definition extract_video_urls (message : str) : list str :=
  extract_with url_patterns message.

End Regex.

(** ** Strings, paths and timestamps *)

(** [s.strip()] *)
Fixpoint lstrip (db : UnicodeDB) (s : str) : str :=
  match s with
  | c :: s' => if py_isspace db c then lstrip db s' else s
  | [] => []
  end.

Definition rstrip (db : UnicodeDB) (s : str) : str := rev (lstrip db (rev s)).
Definition strip (db : UnicodeDB) (s : str) : str := rstrip db (lstrip db s).

(** [s.split(sep)] for a one-character separator: never an empty list. *)
Fixpoint split_on (sep : char) (s : str) : list str :=
  match s with
  | [] => [[]]
  | c :: s' =>
      if (c =? sep)%N then [] :: split_on sep s'
      else match split_on sep s' with
           | l :: ls => (c :: l) :: ls
           | [] => [[c]]
           end
  end.

Definition slash : char := 47%N.
Definition newline : char := 10%N.
Definition underscore : char := 95%N.

(** [os.path.basename]: what follows the last slash. *)
Definition basename (p : str) : str := last (split_on slash p) [].

(** [Path(dir) / name] rendered with [str], for a [name] that is a single
    path component (see [output_filename_no_slash]). *)
Definition path_join (dir name : str) : str := dir ++ [slash] ++ name.

(** The fields of [datetime.now()] that matter here. *)
Record datetime := {
  year : nat; month : nat; day : nat;
  hour : nat; minute : nat; second : nat
}.

Definition digit (d : nat) : char := N.of_nat (48 + d).

(** A two-digit, zero-padded field ([%m], [%d], [%y], [%H], [%M]). *)
Definition pad2 (n : nat) : str := [digit (n / 10); digit (n mod 10)].

(** [now.strftime("%m-%d-%y_%H:%M")] *)
Definition strftime (d : datetime) : str :=
  pad2 (month d) ++ cp "-" ++ pad2 (day d) ++ cp "-" ++ pad2 (year d mod 100)
  ++ cp "_" ++ pad2 (hour d) ++ cp ":" ++ pad2 (minute d).

(** [[^\w\-_\.]] *)
Definition unsafe_chars : cset :=
  CNot (CUnion CWord (CUnion (CChar 45%N) (CUnion (CChar 95%N) (CChar 46%N)))).

(** [re.sub(r'[^\w\-_\.]', '_', title)[:50]] *)
Definition sanitize_title (db : UnicodeDB) (title : str) : str :=
  firstn 50 (sub_cset db unsafe_chars underscore title).

Definition profile_suffix : str := cp "-x220.mp4".

(** [f"{safe_title}-{timestamp}-x220.mp4"] *)
Definition output_filename (safe_title timestamp : str) : str :=
  safe_title ++ cp "-" ++ timestamp ++ profile_suffix.

(** ** The outside world

    Every call that leaves the process (clock, file system, subprocesses,
    IRC connection) is answered by an oracle that sees the whole history
    of the run; a call either returns or raises.  An [exn] is an instance
    of Python's [Exception], the class that the handlers of
    [download_and_encode] and [process_videos] catch. *)

Record exn := { exn_type : str; exn_text : str }.

Inductive result (A : Type) :=
| Ok (a : A)
| Raised (e : exn).
Arguments Ok {A} a.
Arguments Raised {A} e.

Record completed_process := {
  returncode : Z;
  stdout : str;
  stderr : str
}.

Inductive level := INFO | WARNING | ERROR.

Inductive event :=
| EvNow (d : datetime)
| EvMkdir (dir : str) (r : result unit)
| EvRun (cmd : list str) (capture : bool) (cwd : option str)
        (r : result completed_process)
| EvGlob (dir pattern : str) (r : result (list str))
| EvUnlink (file : str) (r : result unit)
| EvPrivmsg (target text : str) (r : result unit)
| EvLog (lvl : level) (text : str).

Definition history := list event.

Record Oracle := {
  o_now : history -> datetime;
  o_mkdir : history -> str -> result unit;
  o_run : history -> list str -> bool -> option str -> result completed_process;
  o_glob : history -> str -> str -> result (list str);
  o_unlink : history -> str -> result unit;
  o_privmsg : history -> str -> str -> result unit
}.

(** A computation reads the history so far and yields its result together
    with the events it added, oldest first. *)
Definition M (A : Type) := history -> result A * list event.

Definition ret {A} (a : A) : M A := fun _ => (Ok a, []).

Definition bind {A B} (m : M A) (f : A -> M B) : M B :=
  fun h =>
    match m h with
    | (Ok a, es) => let '(r, es') := f a (h ++ es) in (r, es ++ es')
    | (Raised e, es) => (Raised e, es)
    end.

(** [try: m  except: handler] *)
Definition try_except {A} (m : M A) (handler : exn -> M A) : M A :=
  fun h =>
    match m h with
    | (Ok a, es) => (Ok a, es)
    | (Raised e, es) => let '(r, es') := handler e (h ++ es) in (r, es ++ es')
    end.

Notation "x <- m ;; k" := (bind m (fun x => k))
  (at level 61, m at next level, right associativity).
Notation "m ;;; k" := (bind m (fun _ => k))
  (at level 61, right associativity).

Definition log (lvl : level) (text : str) : M unit :=
  fun _ => (Ok tt, [EvLog lvl text]).

(** ** Commands *)

Definition temp_dir : str := cp "/app/temp".
Definition output_dir : str := cp "/app/output".

Definition info_cmd (url : str) : list str :=
  [cp "yt-dlp"; cp "--get-title"; cp "--get-filename";
   cp "-o"; cp "%(title)s.%(ext)s"; url].

Definition download_cmd (url : str) : list str :=
  [cp "yt-dlp"; cp "-f"; cp "best[height<=720]";
   cp "-o"; cp "input_video.%(ext)s"; url].

Definition encoders_cmd : list str :=
  [cp "ffmpeg"; cp "-hide_banner"; cp "-encoders"].

Definition nvenc_cmd (input_file output_path : str) : list str :=
  [cp "ffmpeg"; cp "-i"; input_file;
   cp "-vf"; cp "scale=trunc(iw/2)*2:trunc(ih/2)*2,format=yuv420p";
   cp "-c:v"; cp "h264_nvenc"; cp "-preset"; cp "p4"; cp "-tune"; cp "hq";
   cp "-rc"; cp "vbr"; cp "-cq"; cp "18"; cp "-b:v"; cp "0";
   cp "-profile:v"; cp "baseline"; cp "-level"; cp "3.1";
   cp "-c:a"; cp "aac"; cp "-b:a"; cp "160k";
   cp "-movflags"; cp "+faststart";
   cp "-y";
   output_path].

Definition cpu_cmd (input_file output_path : str) : list str :=
  [cp "ffmpeg"; cp "-i"; input_file;
   cp "-vf"; cp "scale=trunc(iw/2)*2:trunc(ih/2)*2,format=yuv420p";
   cp "-c:v"; cp "libx264"; cp "-preset"; cp "slow"; cp "-crf"; cp "18";
   cp "-profile:v"; cp "baseline"; cp "-level"; cp "3.1";
   cp "-c:a"; cp "aac"; cp "-b:a"; cp "160k";
   cp "-movflags"; cp "+faststart";
   cp "-y";
   output_path].

Definition exited_zero (p : completed_process) : bool := (returncode p =? 0)%Z.

(** ** The job: [check_nvenc_available] and [download_and_encode] *)

Section Job.
Variable db : UnicodeDB.
Variable O : Oracle.

Definition datetime_now : M datetime :=
  fun h => let d := o_now O h in (Ok d, [EvNow d]).

Definition mkdir (dir : str) : M unit :=
  fun h => let r := o_mkdir O h dir in (r, [EvMkdir dir r]).

(** [subprocess.run(cmd, capture_output=capture, text=capture, cwd=cwd)] *)
Definition run (cmd : list str) (capture : bool) (cwd : option str)
  : M completed_process :=
  fun h => let r := o_run O h cmd capture cwd in (r, [EvRun cmd capture cwd r]).

(** [list(dir.glob(pattern))] *)
Definition glob (dir pattern : str) : M (list str) :=
  fun h => let r := o_glob O h dir pattern in (r, [EvGlob dir pattern r]).

Definition unlink (file : str) : M unit :=
  fun h => let r := o_unlink O h file in (r, [EvUnlink file r]).

Definition privmsg (target text : str) : M unit :=
  fun h => let r := o_privmsg O h target text in (r, [EvPrivmsg target text r]).

Definition check_nvenc_available : M bool :=
  try_except
    (result <- run encoders_cmd true None ;;
     ret (contains (cp "h264_nvenc") (stdout result)))
    (fun _ => ret false).

(** Lines 229-240: the last check of [success], the cleanup and the
    successful return. *)
Definition finish (success : bool) (input_file output_path : str)
  : M (bool * option str) :=
  if negb success then
    log ERROR (cp "All encoding methods failed") ;;;
    ret (false, None)
  else
    try_except
      (unlink input_file ;;;
       log INFO (cp "Cleaned up temporary files"))
      (fun _ => ret tt) ;;;
    ret (true, Some output_path).

(** Lines 179-240: GPU attempt, CPU fallback, cleanup. *)
Definition encode (input_file output_path : str) : M (bool * option str) :=
  nvenc <- check_nvenc_available ;;
  success <-
    (if nvenc then
       log INFO (cp "RTX 4060 detected! Using GPU encoding (NVENC)...") ;;;
       result <- run (nvenc_cmd input_file output_path) false None ;;
       if exited_zero result then
         log INFO (cp "NVENC encoding completed successfully") ;;;
         ret true
       else
         log WARNING (cp "NVENC encoding failed, falling back to CPU encoding...") ;;;
         ret false
     else
       log INFO (cp "NVENC not available, using CPU encoding...") ;;;
       ret false) ;;
  if negb success then
    log INFO (cp "Using CPU encoding with x264...") ;;;
    result <- run (cpu_cmd input_file output_path) false None ;;
    if negb (exited_zero result) then
      log ERROR (cp "CPU encoding also failed") ;;;
      ret (false, None)
    else finish true input_file output_path
  else finish success input_file output_path.

(** [lines[0] if lines else "video"] over [stdout.strip().split('\n')] *)
Definition title_of (out : str) : str :=
  match split_on newline (strip db out) with
  | l :: _ => l
  | [] => cp "video"
  end.

(** The body of the [try] of [download_and_encode]. *)
Definition download_and_encode_body (url : str) : M (bool * option str) :=
  now <- datetime_now ;;
  let timestamp := strftime now in
  mkdir temp_dir ;;;
  log INFO (cp "Getting video info for: " ++ url) ;;;
  result <- run (info_cmd url) true (Some temp_dir) ;;
  if negb (exited_zero result) then
    log ERROR (cp "Failed to get video info: " ++ stderr result) ;;;
    ret (false, None)
  else
    let title := title_of (stdout result) in
    let safe_title := sanitize_title db title in
    log INFO (cp "Downloading video: " ++ title) ;;;
    result <- run (download_cmd url) false (Some temp_dir) ;;
    if negb (exited_zero result) then
      log ERROR (cp "Failed to download video") ;;;
      ret (false, None)
    else
      input_files <- glob temp_dir (cp "input_video.*") ;;
      match input_files with
      | [] =>
          log ERROR (cp "No input file found after download") ;;;
          ret (false, None)
      | input_file :: _ =>
          let output_path :=
            path_join output_dir (output_filename safe_title timestamp) in
          encode input_file output_path
      end.

Definition download_and_encode (url : str) : M (bool * option str) :=
  try_except
    (download_and_encode_body url)
    (fun e =>
       log ERROR (cp "Exception in download_and_encode: " ++ exn_text e) ;;;
       ret (false, None)).

End Job.

(** ** The job queue ([queue.Queue()], unbounded)

    The class is the one of Python's standard library: [put] appends to
    a deque and counts one more unfinished task, [get] takes from the
    left end of the deque and waits while it is empty, [task_done]
    counts one task less and raises [ValueError] below zero. *)

Definition job := (str * str)%type.      (* (url, requester) *)

Record Queue := {
  items : list job;            (* the deque, oldest first *)
  unfinished_tasks : nat
}.

Definition new_queue : Queue := {| items := []; unfinished_tasks := 0 |}.

(** [put]: with [maxsize = 0] there is no full queue to wait for. *)
Definition put (j : job) (q : Queue) : Queue :=
  {| items := items q ++ [j]; unfinished_tasks := S (unfinished_tasks q) |}.

(** [get]: [None] stands for the caller waiting on an empty queue. *)
Definition get (q : Queue) : option (job * Queue) :=
  match items q with
  | [] => None
  | j :: rest => Some (j, {| items := rest; unfinished_tasks := unfinished_tasks q |})
  end.

Definition value_error : exn :=
  {| exn_type := cp "ValueError"; exn_text := cp "task_done() called too many times" |}.

Definition task_done (q : Queue) : result Queue :=
  match unfinished_tasks q with
  | O => Raised value_error
  | S n => Ok {| items := items q; unfinished_tasks := n |}
  end.

(** What the worker relies on when it calls [task_done]: no more jobs are
    waiting than were counted. *)
Definition queue_ok (q : Queue) : Prop :=
  List.length (items q) <= unfinished_tasks q.

Fixpoint put_all (js : list job) (q : Queue) : Queue :=
  match js with
  | [] => q
  | j :: js' => put_all js' (put j q)
  end.

(** [n] successive [get]s; [None] as soon as one of them would wait. *)
Fixpoint get_n (n : nat) (q : Queue) : option (list job * Queue) :=
  match n with
  | O => Some ([], q)
  | S n' =>
      match get q with
      | None => None
      | Some (j, q') =>
          match get_n n' q' with
          | None => None
          | Some (js, q'') => Some (j :: js, q'')
          end
      end
  end.

(** ** The worker loop ([process_videos]) *)

Definition check_mark : char := 9989%N.   (* U+2705 *)
Definition cross_mark : char := 10060%N.  (* U+274C *)

Definition ready_message (file_url requester : str) : str :=
  [check_mark] ++ cp " Video ready: " ++ file_url
  ++ cp " (requested by " ++ requester ++ cp ")".

Definition failed_message (url requester : str) : str :=
  [cross_mark] ++ cp " Failed to process video: " ++ url
  ++ cp " (requested by " ++ requester ++ cp ")".

(** [f"Processing video: {url} requested by {requester}"] *)
Definition processing_line (url requester : str) : str :=
  cp "Processing video: " ++ url ++ cp " requested by " ++ requester.

Inductive iteration :=
| Waiting                                          (* [get] waits for a job *)
| Looped (es : list event) (q : Queue)             (* back at [while True] *)
| Escaped (e : exn) (es : list event) (q : Queue). (* an exception left the loop *)

Record bot := {
  hist : history;
  queue : Queue;
  crashed : option exn       (* the exception that ended the worker, if any *)
}.

Inductive action :=
| Enqueue (j : job)          (* a message handler puts a job *)
| Iterate.                   (* the worker runs one iteration of its loop *)

Section Worker.
Variable db : UnicodeDB.
Variable O : Oracle.
Variable channel : str.

(** Lines 95-109, after the job has been taken from the queue. *)
Definition handle_job (j : job) : M unit :=
  let '(url, requester) := j in
  log INFO (processing_line url requester) ;;;
  r <- download_and_encode db O url ;;
  match r with
  | (true, Some (c :: p)) =>
      let output_file := c :: p in
      let filename := basename output_file in
      let file_url := cp "http://10.0.0.2:8084/" ++ filename in
      privmsg O channel (ready_message file_url requester) ;;;
      log INFO (cp "Video processing completed: " ++ output_file)
  | _ =>
      privmsg O channel (failed_message url requester) ;;;
      log ERROR (cp "Video processing failed for: " ++ url)
  end.

(** One pass through the body of [while True]: try / except / finally. *)
Definition iterate (h : history) (q : Queue) : iteration :=
  match get q with
  | None => Waiting
  | Some (j, q1) =>
      let '(r, es) :=
        try_except (handle_job j)
          (fun e => log ERROR (cp "Error in video processing: " ++ exn_text e)) h in
      match task_done q1 with
      | Raised e => Escaped e es q1
      | Ok q2 =>
          match r with
          | Ok _ => Looped es q2
          | Raised e => Escaped e es q2
          end
      end
  end.

Definition step (b : bot) (a : action) : bot :=
  match a with
  | Enqueue j => {| hist := hist b; queue := put j (queue b); crashed := crashed b |}
  | Iterate =>
      match crashed b with
      | Some _ => b
      | None =>
          match iterate (hist b) (queue b) with
          | Waiting => b
          | Looped es q => {| hist := hist b ++ es; queue := q; crashed := None |}
          | Escaped e es q => {| hist := hist b ++ es; queue := q; crashed := Some e |}
          end
      end
  end.

Definition run_bot (b : bot) (schedule : list action) : bot :=
  fold_left step schedule b.

End Worker.

Definition new_bot : bot := {| hist := []; queue := new_queue; crashed := None |}.

(** ** Reading a trace *)

Definition runs (es : list event) : list (list str) :=
  flat_map (fun ev => match ev with EvRun cmd _ _ _ => [cmd] | _ => [] end) es.


Definition notifications (es : list event) : list (str * str) :=
  flat_map (fun ev => match ev with EvPrivmsg t m _ => [(t, m)] | _ => [] end) es.

Definition subprocesses (es : list event)
  : list (list str * result completed_process) :=
  flat_map (fun ev => match ev with EvRun cmd _ _ r => [(cmd, r)] | _ => [] end) es.

(** Which of the five command lines of bot.py a command is. *)
Inductive tool := YtInfo | YtDownload | FfEncoders | FfNvenc | FfCpu | OtherTool.

Definition tool_of (cmd : list str) : tool :=
  match cmd with
  | prog :: arg :: _ =>
      if str_eqb prog (cp "yt-dlp") then
        if str_eqb arg (cp "--get-title") then YtInfo
        else if str_eqb arg (cp "-f") then YtDownload
        else OtherTool
      else if str_eqb prog (cp "ffmpeg") then
        if str_eqb arg (cp "-hide_banner") then FfEncoders
        else if str_eqb arg (cp "-i") then
          if str_eqb (nth 6 cmd []) (cp "h264_nvenc") then FfNvenc
          else if str_eqb (nth 6 cmd []) (cp "libx264") then FfCpu
          else OtherTool
        else OtherTool
      else OtherTool
  | _ => OtherTool
  end.

(** An encode command line: the hardware or the software one. *)
Definition is_encode_cmd (cmd : list str) : bool :=
  match tool_of cmd with
  | FfNvenc | FfCpu => true
  | _ => false
  end.

Definition encode_invoked (es : list event) : bool :=
  existsb is_encode_cmd (runs es).

(** The capability that the answer to the encoder listing reports. *)
Definition capable (r : result completed_process) : bool :=
  match r with
  | Ok p => contains (cp "h264_nvenc") (stdout p)
  | Raised _ => false
  end.

Definition attempt (cmd : list str) (r : option (result completed_process))
  : list (list str * result completed_process) :=
  match r with
  | Some x => [(cmd, x)]
  | None => []
  end.

(** ** Scripted worlds, for examples *)

Definition proc (rc : Z) (out : str) : completed_process :=
  {| returncode := rc; stdout := out; stderr := [] |}.

Definition file_not_found : exn :=
  {| exn_type := cp "FileNotFoundError";
     exn_text := cp "[Errno 2] No such file or directory" |}.

Definition permission_error : exn :=
  {| exn_type := cp "PermissionError";
     exn_text := cp "[Errno 13] Permission denied" |}.

(** A world whose answers depend on the call only, except for the clock,
    which reads [clock n] after [n] events. *)
Definition scripted (clock : nat -> datetime)
    (answer : tool -> result completed_process)
    (files : result (list str)) (deletion : result unit) : Oracle :=
  {| o_now := fun h => clock (List.length h);
     o_mkdir := fun _ _ => Ok tt;
     o_run := fun _ cmd _ _ => answer (tool_of cmd);
     o_glob := fun _ _ _ => files;
     o_unlink := fun _ _ => deletion;
     o_privmsg := fun _ _ _ => Ok tt |}.

(** 5 March 2024, 14:30:00, one minute later with every event. *)
Definition march_5 (n : nat) : datetime :=
  {| year := 2024; month := 3; day := 5; hour := 14; minute := 30 + n; second := 0 |}.

Definition my_video_stdout : str :=
  cp "My Video!!" ++ [newline] ++ cp "My Video!!.mp4" ++ [newline].

Definition encoder_list_with_nvenc : str :=
  cp " V....D libx264  " ++ [newline] ++ cp " V....D h264_nvenc  " ++ [newline].

Definition encoder_list_without_nvenc : str :=
  cp " V....D libx264  " ++ [newline].

(** Everything works, the GPU encoder included. *)
Definition all_good : Oracle :=
  scripted march_5
    (fun t => match t with
              | YtInfo => Ok (proc 0 my_video_stdout)
              | FfEncoders => Ok (proc 0 encoder_list_with_nvenc)
              | _ => Ok (proc 0 [])
              end)
    (Ok [cp "/app/temp/input_video.mp4"]) (Ok tt).

(** The GPU encode fails, the CPU encode works. *)
Definition gpu_breaks : Oracle :=
  scripted march_5
    (fun t => match t with
              | YtInfo => Ok (proc 0 my_video_stdout)
              | FfEncoders => Ok (proc 0 encoder_list_with_nvenc)
              | FfNvenc => Ok (proc 1 [])
              | _ => Ok (proc 0 [])
              end)
    (Ok [cp "/app/temp/input_video.mp4"]) (Ok tt).

(** The input file cannot be deleted after the encode. *)
Definition undeletable_input : Oracle :=
  scripted march_5
    (fun t => match t with
              | YtInfo => Ok (proc 0 my_video_stdout)
              | FfEncoders => Ok (proc 0 encoder_list_without_nvenc)
              | _ => Ok (proc 0 [])
              end)
    (Ok [cp "/app/temp/input_video.mp4"]) (Raised permission_error).

(** No external program is installed: every [subprocess.run] raises. *)
Definition nothing_installed : Oracle :=
  scripted march_5 (fun _ => Raised file_not_found)
    (Ok [cp "/app/temp/input_video.mp4"]) (Ok tt).

(** ffmpeg cannot be started for the encoder listing, but encodes. *)
Definition listing_raises : Oracle :=
  scripted march_5
    (fun t => match t with
              | YtInfo => Ok (proc 0 my_video_stdout)
              | FfEncoders => Raised permission_error
              | _ => Ok (proc 0 [])
              end)
    (Ok [cp "/app/temp/input_video.mp4"]) (Ok tt).

(** The hardware encoder is listed until the first encode command has
    been run, and no longer after that. *)
Definition gpu_taken_away : Oracle :=
  {| o_now := fun h => march_5 0;
     o_mkdir := fun _ _ => Ok tt;
     o_run := fun h cmd _ _ =>
       match tool_of cmd with
       | YtInfo => Ok (proc 0 my_video_stdout)
       | FfEncoders =>
           if existsb is_encode_cmd (runs h)
           then Ok (proc 0 encoder_list_without_nvenc)
           else Ok (proc 0 encoder_list_with_nvenc)
       | _ => Ok (proc 0 [])
       end;
     o_glob := fun _ _ _ => Ok [cp "/app/temp/input_video.mp4"];
     o_unlink := fun _ _ => Ok tt;
     o_privmsg := fun _ _ _ => Ok tt |}.

(** ** What the specification speaks of, read on a trace *)

(** The fetch stage of the job found [input_file]: the directory listing
    was reached and [input_file] is its first entry. *)
Definition fetched (es : list event) (input_file : str) : Prop :=
  exists more, In (EvGlob temp_dir (cp "input_video.*") (Ok (input_file :: more))) es.

Definition probe_failed (url : str) (es : list event) : Prop :=
  exists p, In (EvRun (info_cmd url) true (Some temp_dir) (Ok p)) es
            /\ exited_zero p = false.

Definition download_failed (url : str) (es : list event) : Prop :=
  exists p, In (EvRun (download_cmd url) false (Some temp_dir) (Ok p)) es
            /\ exited_zero p = false.

Definition no_input_file (es : list event) : Prop :=
  In (EvGlob temp_dir (cp "input_video.*") (Ok [])) es.

(** One of the calls of the fetch stage raised instead of returning. *)
Definition fetch_raised (url : str) (es : list event) : Prop :=
  exists e,
    In (EvMkdir temp_dir (Raised e)) es
    \/ In (EvRun (info_cmd url) true (Some temp_dir) (Raised e)) es
    \/ In (EvRun (download_cmd url) false (Some temp_dir) (Raised e)) es
    \/ In (EvGlob temp_dir (cp "input_video.*") (Raised e)) es.

(** The job fails without having started an encode. *)
Definition failed_before_encoding (res : result (bool * option str))
    (es : list event) : Prop :=
  res = Ok (false, None) /\ encode_invoked es = false.

(** The sentence of the specification, read as an equivalence. *)
Definition fetch_fails_exactly_when (db : UnicodeDB) (O : Oracle) (url : str)
    (h : history) : Prop :=
  let '(res, es) := download_and_encode db O url h in
  failed_before_encoding res es
  <-> probe_failed url es \/ download_failed url es \/ no_input_file es.

(** A call of the fetch or encode stage raised, other than the encoder
    listing, whose exceptions [check_nvenc_available] handles itself. *)
Definition pipeline_raised (es : list event) : Prop :=
  exists e,
    (exists dir, In (EvMkdir dir (Raised e)) es)
    \/ (exists cmd capture cwd,
          cmd <> encoders_cmd /\ In (EvRun cmd capture cwd (Raised e)) es)
    \/ (exists dir pattern, In (EvGlob dir pattern (Raised e)) es).

(** A log entry is written after a deletion that raised. *)
Definition deletion_failure_logged (es : list event) : Prop :=
  exists pre f e post lvl text,
    es = pre ++ EvUnlink f (Raised e) :: post /\ In (EvLog lvl text) post.

(** A timestamp at the resolution of the naming scheme. *)
Definition minute_stamp (d : datetime) : nat * nat * nat * nat * nat :=
  (year d, month d, day d, hour d, minute d).

(** ** The language of a pattern

    [Matches db r u]: the whole of [u] is a word of [r].  The matcher is
    compared with it below. *)

Inductive Matches (db : UnicodeDB) : regex -> str -> Prop :=
| MStr l : Matches db (Str l) l
| MCls c x : in_cset db c x = true -> Matches db (Cls c) [x]
| MCat a b u v : Matches db a u -> Matches db b v -> Matches db (Cat a b) (u ++ v)
| MOptSome a u : Matches db a u -> Matches db (Opt a) u
| MOptNone a : Matches db (Opt a) []
| MMany1 c x u :
    in_cset db c x = true ->
    Forall (fun y => in_cset db c y = true) u ->
    Matches db (Many1 c) (x :: u).

(** [u] occurs in [s] as a contiguous piece. *)
Definition substring (u s : str) : Prop :=
  exists pre post, s = pre ++ u ++ post.

Fixpoint prefixes (s : str) : list str :=
  [] :: match s with
        | [] => []
        | c :: s' => map (cons c) (prefixes s')
        end.

Fixpoint substrings (s : str) : list str :=
  prefixes s ++ match s with
                | [] => []
                | _ :: s' => substrings s'
                end.

(** No piece of [message] is a word of a pattern of [patterns]. *)
Definition no_match_in (db : UnicodeDB) (patterns : list regex) (message : str) : bool :=
  forallb (fun u => forallb (fun p => negb (fullmatch db p u)) patterns)
          (substrings message).

(** ** Occurrences of a pattern in a text

    What the claim on the extractor calls a match occurrence: a match
    together with the offset at which it stands in the message. *)

(** [u] stands in [s] at offset [i]. *)
Definition stands_at (s : str) (i : nat) (u : str) : Prop :=
  exists pre post, s = pre ++ u ++ post /\ List.length pre = i.

(** The offset just behind an occurrence; an empty match still occupies
    its own position. *)
Definition span (o : nat * str) : nat :=
  fst o + Nat.max 1 (List.length (snd o)).

(** [o1] ends before [o2] begins. *)
Definition before (o1 o2 : nat * str) : Prop := span o1 <= fst o2.

(** [occ] lists the occurrences of [p] in [s] that one pass over [s] from
    left to right reports: each is a match of [p] standing at its offset,
    they come in the order of the text and do not overlap, and no place
    where [p] matches is passed over: it lies within a listed
    occurrence. *)
Definition occurrences_of (db : UnicodeDB) (s : str) (p : regex)
    (occ : list (nat * str)) : Prop :=
  Forall (fun o => stands_at s (fst o) (snd o)
                   /\ fullmatch db p (snd o) = true) occ
  /\ StronglySorted before occ
  /\ (forall k v, stands_at s k v -> fullmatch db p v = true ->
        exists o, In o occ /\ fst o <= k < span o).

(** An occurrence in the tail of a text, seen from the text itself. *)
Definition later (o : nat * str) : nat * str := (S (fst o), snd o).

(** ** The message handlers ([on_pubmsg], [on_privmsg])

    A handler runs on the thread of the IRC client; it changes the queue
    and adds events, and an exception of [privmsg] leaves it. *)

Definition camera : char := 128249%N.     (* U+1F4F9 *)

(** [f"📹 Processing video: {url}"] *)
Definition processing_message (url : str) : str :=
  [camera] ++ cp " Processing video: " ++ url.

(** [f"Found video URL from {nick}: {url}"] *)
Definition found_public (nick url : str) : str :=
  cp "Found video URL from " ++ nick ++ cp ": " ++ url.

(** [f"Found video URL from {nick} (private): {url}"] *)
Definition found_private (nick url : str) : str :=
  cp "Found video URL from " ++ nick ++ cp " (private): " ++ url.

Section Handlers.
Variable db : UnicodeDB.
Variable O : Oracle.
Variable channel : str.

(** The body of [for url in urls]: log, acknowledge to [target], put. *)
Fixpoint enqueue_urls (target : str) (found : str -> str) (nick : str)
    (urls : list str) (h : history) (q : Queue)
  : result unit * list event * Queue :=
  match urls with
  | [] => (Ok tt, [], q)
  | url :: rest =>
      match (log INFO (found url) ;;;
             privmsg O target (processing_message url)) h with
      | (Raised e, es) => (Raised e, es, q)
      | (Ok _, es) =>
          let '(r, es', q') :=
            enqueue_urls target found nick rest (h ++ es) (put (url, nick) q) in
          (r, es ++ es', q')
      end
  end.

Definition on_pubmsg (message nick : str) (h : history) (q : Queue)
  : result unit * list event * Queue :=
  enqueue_urls channel (found_public nick) nick
    (extract_video_urls db message) h q.

Definition on_privmsg (message nick : str) (h : history) (q : Queue)
  : result unit * list event * Queue :=
  enqueue_urls nick (found_private nick) nick
    (extract_video_urls db message) h q.

End Handlers.

(** ** Further readings of the code *)

(** The text that [process_videos] sends for a result of
    [download_and_encode]. *)
Definition report_text (url requester : str) (r : result (bool * option str))
  : str :=
  match r with
  | Ok (true, Some (c :: p)) =>
      ready_message (cp "http://10.0.0.2:8084/" ++ basename (c :: p)) requester
  | _ => failed_message url requester
  end.

(** The set that the last repetition of a pattern ranges over. *)
Fixpoint last_class (r : regex) : option cset :=
  match r with
  | Many1 c => Some c
  | Cat _ b => last_class b
  | _ => None
  end.

(** The jobs that a schedule puts on the queue, in order. *)
Definition enqueued (schedule : list action) : list job :=
  flat_map (fun a => match a with Enqueue j => [j] | Iterate => [] end) schedule.

(** [t] is a report about job [j]. *)
Definition reports (j : job) (t : str) : Prop :=
  t = failed_message (fst j) (snd j)
  \/ exists file_url, t = ready_message file_url (snd j).

(** The text after a match does not begin with a character of [c]. *)
Definition stops_before (db : UnicodeDB) (c : cset) (rest : str) : Prop :=
  match rest with
  | [] => True
  | y :: _ => in_cset db c y = false
  end.

Definition server_not_connected : exn :=
  {| exn_type := cp "ServerNotConnectedError"; exn_text := cp "Not connected." |}.

(** Everything works but the connection to the IRC server. *)
Definition not_connected : Oracle :=
  {| o_now := fun h => march_5 (List.length h);
     o_mkdir := fun _ _ => Ok tt;
     o_run := fun _ cmd _ _ =>
       match tool_of cmd with
       | YtInfo => Ok (proc 0 my_video_stdout)
       | FfEncoders => Ok (proc 0 encoder_list_with_nvenc)
       | _ => Ok (proc 0 [])
       end;
     o_glob := fun _ _ _ => Ok [cp "/app/temp/input_video.mp4"];
     o_unlink := fun _ _ => Ok tt;
     o_privmsg := fun _ _ _ => Raised server_not_connected |}.

(** The acknowledgement of one URL, sent to [target]. *)
Definition ack (target url : str) : str * str :=
  (target, processing_message url).

(* ================================================================== *)
(** * Properties *)

(** ** Regular expressions *)

Lemma strip_prefix_Some l : forall s rest,
  strip_prefix l s = Some rest -> s = l ++ rest.
Proof.
  induction l as [|x l IH]; intros s rest H; simpl in *.
  - now inversion H.
  - destruct s as [|y s]; [discriminate|].
    destruct (N.eqb_spec x y); [|discriminate].
    subst. f_equal. now apply IH.
Qed.

Lemma strip_prefix_app l rest : strip_prefix l (l ++ rest) = Some rest.
Proof.
  induction l as [|x l IH]; simpl; [reflexivity|].
  now rewrite N.eqb_refl.
Qed.

Lemma firstn_match (s u rest : str) :
  s = u ++ rest -> firstn (List.length s - List.length rest) s = u.
Proof.
  intros ->.
  rewrite length_app, Nat.add_sub, firstn_app, Nat.sub_diag, firstn_all.
  simpl. apply app_nil_r.
Qed.

Section RegexFacts.
Variable db : UnicodeDB.

Lemma many_sound c : forall s k x,
  many db c s k = Some x ->
  exists u rest, s = u ++ rest
                 /\ Forall (fun y => in_cset db c y = true) u
                 /\ k rest = Some x.
Proof.
  induction s as [|y s IH]; intros k x H; simpl in H.
  - exists [], []. auto.
  - destruct (in_cset db c y) eqn:Ey.
    + destruct (many db c s k) eqn:Em.
      * inversion H; subst.
        destruct (IH _ _ Em) as (u & rest & -> & Hu & Hk).
        exists (y :: u), rest. auto.
      * exists [], (y :: s). auto.
    + exists [], (y :: s). auto.
Qed.

Lemma rmatch_sound r : forall s k x,
  rmatch db r s k = Some x ->
  exists u rest, s = u ++ rest /\ Matches db r u /\ k rest = Some x.
Proof.
  induction r as [l|c|a IHa b IHb|a IHa|c]; intros s k x H; simpl in H.
  - destruct (strip_prefix l s) as [rest|] eqn:E; [|discriminate].
    apply strip_prefix_Some in E. exists l, rest. auto using Matches.
  - destruct s as [|y s]; [discriminate|].
    destruct (in_cset db c y) eqn:Ey; [|discriminate].
    exists [y], s. auto using Matches.
  - destruct (IHa _ _ _ H) as (u & rest & -> & Hu & Hb).
    destruct (IHb _ _ _ Hb) as (v & rest' & -> & Hv & Hk).
    exists (u ++ v), rest'. rewrite <- app_assoc. auto using Matches.
  - destruct (rmatch db a s k) eqn:E.
    + inversion H; subst.
      destruct (IHa _ _ _ E) as (u & rest & -> & Hu & Hk).
      exists u, rest. auto using Matches.
    + exists [], s. auto using Matches.
  - destruct s as [|y s]; [discriminate|].
    destruct (in_cset db c y) eqn:Ey; [|discriminate].
    destruct (many_sound _ _ _ _ H) as (u & rest & -> & Hu & Hk).
    exists (y :: u), rest. auto using Matches.
Qed.

Lemma many_complete c u :
  Forall (fun y => in_cset db c y = true) u ->
  forall rest k x, k rest = Some x ->
  exists y, many db c (u ++ rest) k = Some y.
Proof.
  induction 1 as [|y u Hy Hu IH]; intros rest k x Hk; simpl.
  - destruct rest as [|z rest]; simpl; [eauto|].
    destruct (in_cset db c z); [|eauto].
    destruct (many db c rest k); eauto.
  - rewrite Hy. destruct (IH _ _ _ Hk) as [z ->]. eauto.
Qed.

Lemma rmatch_complete r u :
  Matches db r u ->
  forall rest k x, k rest = Some x ->
  exists y, rmatch db r (u ++ rest) k = Some y.
Proof.
  induction 1 as [l|c x Hx|a b u v _ IHa _ IHb|a u _ IHa|a|c x u Hx Hu];
    intros rest k z Hk; simpl.
  - rewrite strip_prefix_app. eauto.
  - rewrite Hx. eauto.
  - rewrite <- app_assoc.
    destruct (IHb _ _ _ Hk) as [y Hy].
    exact (IHa _ (fun rest' => rmatch db b rest' k) _ Hy).
  - destruct (IHa _ _ _ Hk) as [y ->]. eauto.
  - destruct (rmatch db a rest k); eauto.
  - rewrite Hx. eapply many_complete; eauto.
Qed.

Lemma fullmatch_iff r u : fullmatch db r u = true <-> Matches db r u.
Proof.
  unfold fullmatch. split.
  - destruct (rmatch db r u at_end) eqn:E; [|discriminate]. intros _.
    destruct (rmatch_sound _ _ _ _ E) as (v & rest & -> & Hv & Hk).
    destruct rest; [|discriminate]. now rewrite app_nil_r.
  - intros H.
    destruct (rmatch_complete r u H [] at_end []) as [y Hy]; [reflexivity|].
    rewrite app_nil_r in Hy. now rewrite Hy.
Qed.

Lemma match_at_fullmatch r s rest :
  match_at db r s = Some rest ->
  exists u, s = u ++ rest /\ fullmatch db r u = true.
Proof.
  intros H. destruct (rmatch_sound _ _ _ _ H) as (u & rest' & -> & Hu & Hk).
  inversion Hk; subst. exists u. split; [reflexivity|].
  now apply fullmatch_iff.
Qed.

Lemma scan_sound r : forall s skip u,
  In u (scan db r s skip) -> substring u s /\ fullmatch db r u = true.
Proof.
  induction s as [|c s IH]; intros skip u Hin; cbn [scan] in Hin.
  - destruct skip; [|contradiction].
    destruct (match_at db r []) as [rest|] eqn:E; [|contradiction].
    destruct Hin as [<-|[]].
    destruct (match_at_fullmatch _ _ _ E) as (v & Hv & Hm).
    symmetry in Hv. apply app_eq_nil in Hv as [-> ->].
    split; [now exists [], []|assumption].
  - assert (Htail : forall n, In u (scan db r s n) ->
              substring u (c :: s) /\ fullmatch db r u = true).
    { intros n Hn. destruct (IH _ _ Hn) as [(pre & post & ->) Hm].
      split; [now exists (c :: pre), post|assumption]. }
    destruct skip as [|n]; [|eauto].
    destruct (match_at db r (c :: s)) as [rest|] eqn:E; [|eauto].
    destruct Hin as [<-|Hin]; [|eauto].
    destruct (match_at_fullmatch _ _ _ E) as (v & Hv & Hm).
    rewrite (@firstn_match _ _ _ Hv).
    split; [now exists [], rest|assumption].
Qed.

Lemma extract_with_flat_map patterns message :
  extract_with db patterns message
  = flat_map (fun pattern => findall db pattern message) patterns.
Proof.
  unfold extract_with.
  enough (G : forall acc,
    fold_left (fun urls pattern => urls ++ findall db pattern message) patterns acc
    = acc ++ flat_map (fun pattern => findall db pattern message) patterns)
    by apply (G []).
  induction patterns as [|p ps IH]; intros acc; simpl.
  - now rewrite app_nil_r.
  - now rewrite IH, app_assoc.
Qed.

End RegexFacts.

(** ** URL extractor *)

Lemma prefixes_complete u : forall post, In u (prefixes (u ++ post)).
Proof.
  induction u as [|c u IH]; intros post.
  - destruct post; simpl; auto.
  - simpl. right. apply in_map, IH.
Qed.

Lemma substrings_complete u s : substring u s -> In u (substrings s).
Proof.
  intros (pre & post & ->).
  induction pre as [|c pre IH].
  - simpl. generalize (prefixes_complete u post).
    destruct (u ++ post); intros H; apply in_or_app; now left.
  - change (In u (prefixes (c :: pre ++ u ++ post) ++ substrings (pre ++ u ++ post))).
    apply in_or_app. now right.
Qed.

Lemma no_match_in_spec db patterns message :
  no_match_in db patterns message = true ->
  forall u p, substring u message -> In p patterns -> fullmatch db p u = false.
Proof.
  unfold no_match_in. rewrite forallb_forall. intros H u p Hu Hp.
  specialize (H u (substrings_complete _ _ Hu)).
  rewrite forallb_forall in H. specialize (H p Hp).
  now apply negb_true_iff in H.
Qed.

Lemma count_occ_flat_map (A : Type) (f : A -> list str) (u : str) (l : list A) :
  count_occ str_eq_dec (flat_map f l) u
  = list_sum (map (fun a => count_occ str_eq_dec (f a) u) l).
Proof.
  induction l as [|a l IH]; simpl; [reflexivity|].
  now rewrite count_occ_app, IH.
Qed.

Lemma stands_at_head (s u rest : str) : s = u ++ rest -> stands_at s 0 u.
Proof. intros ->. now exists [], rest. Qed.

Lemma stands_at_cons c s i u : stands_at s i u -> stands_at (c :: s) (S i) u.
Proof.
  intros (pre & post & -> & <-). now exists (c :: pre), post.
Qed.

Lemma stands_at_tail c s k v : stands_at (c :: s) (S k) v -> stands_at s k v.
Proof.
  intros (pre & post & E & Hl).
  destruct pre as [|x pre]; [discriminate Hl|].
  injection E as _ ->. injection Hl as <-. now exists pre, post.
Qed.

Lemma stands_at_nil k v : stands_at [] k v -> k = 0 /\ v = [].
Proof.
  intros (pre & post & E & <-). symmetry in E.
  apply app_eq_nil in E as [-> E]. apply app_eq_nil in E as [-> _]. auto.
Qed.

Lemma match_where_it_stands db p s v :
  stands_at s 0 v -> fullmatch db p v = true ->
  exists y, match_at db p s = Some y.
Proof.
  intros (pre & post & -> & Hl) Hm.
  destruct pre; [|discriminate Hl]. simpl app.
  apply fullmatch_iff in Hm.
  exact (rmatch_complete db p v Hm post Some post eq_refl).
Qed.

Lemma later_sorted lo occ :
  Forall (fun o => lo <= fst o) occ ->
  StronglySorted before occ ->
  StronglySorted before (map later occ)
  /\ Forall (fun o => S lo <= fst o) (map later occ).
Proof.
  intros Hlo Hs. split.
  - clear Hlo. induction Hs as [|o occ Hs IH Ho]; simpl; constructor; auto.
    apply Forall_forall. intros o' Ho'. apply in_map_iff in Ho' as (o2 & <- & Hin).
    rewrite Forall_forall in Ho. specialize (Ho o2 Hin).
    unfold before, span, later in *. cbn [fst snd] in *. lia.
  - apply Forall_forall. intros o' Ho'. apply in_map_iff in Ho' as (o2 & <- & Hin).
    rewrite Forall_forall in Hlo. specialize (Hlo o2 Hin). simpl. lia.
Qed.

Lemma scan_occurrences db p : forall s skip,
  skip <= List.length s ->
  exists occ,
    scan db p s skip = map snd occ
    /\ Forall (fun o => skip <= fst o) occ
    /\ Forall (fun o => stands_at s (fst o) (snd o)
                        /\ fullmatch db p (snd o) = true) occ
    /\ StronglySorted before occ
    /\ (forall k v, skip <= k -> stands_at s k v -> fullmatch db p v = true ->
          exists o, In o occ /\ fst o <= k < span o).
Proof.
  induction s as [|c s IH]; intros skip Hskip.
  - assert (skip = 0) by (simpl in Hskip; lia). subst skip. cbn [scan].
    destruct (match_at db p []) as [rest|] eqn:E.
    + destruct (match_at_fullmatch db p [] rest E) as (u & Hu & Hm).
      symmetry in Hu. apply app_eq_nil in Hu as [-> ->].
      exists [(0, [])]. split; [reflexivity|].
      split; [repeat constructor|].
      split; [repeat constructor; [now apply (stands_at_head [] [] [])|exact Hm]|].
      split; [repeat constructor|].
      intros k v _ Hst _. apply stands_at_nil in Hst as [-> ->].
      exists (0, []). unfold span. simpl. split; [now left|lia].
    + exists []. split; [reflexivity|]. split; [constructor|].
      split; [constructor|]. split; [constructor|].
      intros k v _ Hst Hm. destruct (stands_at_nil _ _ Hst) as [-> ->].
      destruct (match_where_it_stands db p [] [] Hst Hm) as [y Hy].
      rewrite Hy in E. discriminate E.
  - assert (Hshift : forall n, n <= List.length s ->
              exists occ,
                scan db p s n = map snd occ
                /\ Forall (fun o => S n <= fst o) occ
                /\ Forall (fun o => stands_at (c :: s) (fst o) (snd o)
                                    /\ fullmatch db p (snd o) = true) occ
                /\ StronglySorted before occ
                /\ (forall k v, n <= k -> stands_at (c :: s) (S k) v ->
                      fullmatch db p v = true ->
                      exists o, In o occ /\ fst o <= S k < span o)).
    { intros n Hn. destruct (IH n Hn) as (occ & Hscan & Hlo & Hall & Hs & Hcov).
      destruct (later_sorted n occ Hlo Hs) as [Hs' Hlo'].
      exists (map later occ). split; [|split; [exact Hlo'|split; [|split; [exact Hs'|]]]].
      - rewrite map_map. simpl. exact Hscan.
      - apply Forall_forall. intros o' Ho'.
        apply in_map_iff in Ho' as (o & <- & Hin).
        rewrite Forall_forall in Hall. destruct (Hall o Hin) as [Hst Hm].
        split; [exact (stands_at_cons c s _ _ Hst)|exact Hm].
      - intros k v Hk Hst Hm.
        destruct (Hcov k v Hk (stands_at_tail c s k v Hst) Hm) as (o & Hin & Ho).
        exists (later o). split; [now apply in_map|].
        unfold span, later in *. cbn [fst snd] in *. lia. }
    cbn [scan]. destruct skip as [|n].
    + destruct (match_at db p (c :: s)) as [rest|] eqn:E.
      * destruct (match_at_fullmatch db p (c :: s) rest E) as (u & Hu & Hm).
        rewrite (firstn_match (c :: s) u rest Hu).
        assert (Hlen : List.length (c :: s) - List.length rest = List.length u).
        { rewrite Hu, length_app. lia. }
        rewrite Hlen.
        assert (Hle : List.length u - 1 <= List.length s).
        { apply (f_equal (@List.length char)) in Hu.
          rewrite length_app in Hu. simpl in Hu. lia. }
        destruct (Hshift _ Hle) as (occ & Hscan & Hlo & Hall & Hs & Hcov).
        exists ((0, u) :: occ).
        split; [simpl; now rewrite Hscan|].
        split; [constructor; [simpl; lia|]; apply Forall_forall; intros; lia|].
        split; [constructor; [split; [exact (stands_at_head _ _ _ Hu)|exact Hm]|exact Hall]|].
        split.
        -- constructor; [exact Hs|].
           apply Forall_forall. intros o Ho. rewrite Forall_forall in Hlo.
           specialize (Hlo o Ho). unfold before, span. cbn [fst snd]. lia.
        -- intros k v _ Hst Hv.
           destruct (Nat.lt_ge_cases k (Nat.max 1 (List.length u))) as [Hin|Hout].
           ++ exists (0, u). split; [now left|]. unfold span. cbn [fst snd]. lia.
           ++ destruct k as [|k]; [lia|].
              destruct (Hcov k v ltac:(lia) Hst Hv) as (o & Ho & Hk).
              exists o. split; [now right|exact Hk].
      * destruct (Hshift 0 (Nat.le_0_l _)) as (occ & Hscan & Hlo & Hall & Hs & Hcov).
        exists occ. split; [exact Hscan|].
        split; [apply Forall_forall; intros; lia|].
        split; [exact Hall|]. split; [exact Hs|].
        intros k v _ Hst Hv. destruct k as [|k].
        -- destruct (match_where_it_stands db p _ _ Hst Hv) as [y Hy].
           rewrite Hy in E. discriminate E.
        -- exact (Hcov k v (Nat.le_0_l _) Hst Hv).
    + simpl in Hskip.
      destruct (Hshift n ltac:(lia)) as (occ & Hscan & Hlo & Hall & Hs & Hcov).
      exists occ. split; [exact Hscan|]. split; [exact Hlo|].
      split; [exact Hall|]. split; [exact Hs|].
      intros k v Hk Hst Hv. destruct k as [|k]; [lia|].
      exact (Hcov k v ltac:(lia) Hst Hv).
Qed.

Lemma findall_occurrences db p s :
  exists occ, findall db p s = map snd occ /\ occurrences_of db s p occ.
Proof.
  destruct (scan_occurrences db p s 0 (Nat.le_0_l _))
    as (occ & Hscan & _ & Hall & Hs & Hcov).
  exists occ. split; [exact Hscan|]. split; [exact Hall|]. split; [exact Hs|].
  intros k v. apply Hcov, Nat.le_0_l.
Qed.

Lemma extract_with_occurrences db patterns message :
  exists occs,
    extract_with db patterns message = List.concat (map (map snd) occs)
    /\ Forall2 (occurrences_of db message) patterns occs.
Proof.
  rewrite extract_with_flat_map.
  induction patterns as [|p ps (occs & Hc & Hf)].
  - exists []. split; [reflexivity|constructor].
  - destruct (findall_occurrences db p message) as (occ & Hfind & Hocc).
    exists (occ :: occs). split; [simpl; now rewrite Hfind, Hc|].
    constructor; assumption.
Qed.

(** C5. Every URL that the extractor returns is a piece of the message and
    is matched in full by one of the configured patterns; a message no
    piece of which matches yields the empty list; the extractor is a total
    function, so it returns a list on every text; and the result is, pattern
    after pattern in the order of [url_patterns], the list of the
    occurrences of that pattern in the message, one element for each
    occurrence: nothing is left out and nothing is merged.  The same holds
    for the loop over any list of patterns, so a URL that two patterns of
    the list match is returned once by each. *)
Theorem extract_video_urls_spec (db : UnicodeDB) (message : str) :
  (forall u, In u (extract_video_urls db message) ->
     substring u message
     /\ exists p, In p url_patterns /\ fullmatch db p u = true)
  /\ ((forall u p, substring u message -> In p url_patterns ->
         fullmatch db p u = false) ->
      extract_video_urls db message = [])
  /\ (exists urls, extract_video_urls db message = urls)
  /\ (exists occs,
        extract_video_urls db message = List.concat (map (map snd) occs)
        /\ Forall2 (occurrences_of db message) url_patterns occs)
  /\ (forall patterns, exists occs,
        extract_with db patterns message = List.concat (map (map snd) occs)
        /\ Forall2 (occurrences_of db message) patterns occs)
  /\ (forall patterns u,
        count_occ str_eq_dec (extract_with db patterns message) u
        = list_sum (map (fun p => count_occ str_eq_dec (findall db p message) u)
                        patterns)).
Proof.
  assert (Hsound : forall u, In u (extract_video_urls db message) ->
     substring u message
     /\ exists p, In p url_patterns /\ fullmatch db p u = true).
  { intros u Hu. unfold extract_video_urls in Hu.
    rewrite extract_with_flat_map in Hu.
    apply in_flat_map in Hu as (p & Hp & Hu).
    destruct (scan_sound _ _ _ _ _ Hu) as [Hs Hm]. eauto. }
  split; [exact Hsound|]. split; [|split; [|split; [|split]]].
  - intros Hnone.
    destruct (extract_video_urls db message) as [|u us] eqn:E; [reflexivity|].
    destruct (Hsound u (or_introl eq_refl)) as [Hs (p & Hp & Hm)].
    rewrite (Hnone u p Hs Hp) in Hm. discriminate.
  - eauto.
  - exact (extract_with_occurrences db url_patterns message).
  - intros patterns. exact (extract_with_occurrences db patterns message).
  - intros patterns u.
    rewrite extract_with_flat_map. apply count_occ_flat_map.
Qed.

Lemma extract_video_urls_spec_witness :
  let quiet := cp "no links, just chat" in
  let busy := cp "https://youtu.be/abc https://youtu.be/abc" in
  ((forall u p, substring u quiet -> In p url_patterns ->
      fullmatch ascii_db p u = false)
   /\ extract_video_urls ascii_db quiet = [])
  /\ extract_video_urls ascii_db busy
     = [cp "https://youtu.be/abc"; cp "https://youtu.be/abc"]
  /\ exists occs,
       [cp "https://youtu.be/abc"; cp "https://youtu.be/abc"]
       = List.concat (map (map snd) occs)
       /\ Forall2 (occurrences_of ascii_db busy) url_patterns occs.
Proof.
  intros quiet busy.
  assert (H : forall u p, substring u quiet ->
                In p url_patterns -> fullmatch ascii_db p u = false).
  { apply no_match_in_spec. vm_compute. reflexivity. }
  split; [split; [exact H|]|].
  - exact (proj1 (proj2 (extract_video_urls_spec ascii_db quiet)) H).
  - assert (E : extract_video_urls ascii_db busy
                = [cp "https://youtu.be/abc"; cp "https://youtu.be/abc"])
      by (vm_compute; reflexivity).
    split; [exact E|]. rewrite <- E.
    exact (proj1 (proj2 (proj2 (proj2 (extract_video_urls_spec ascii_db busy))))).
Defined.

Example extract_two_hosts :
  extract_video_urls ascii_db
    (cp "see https://youtu.be/dQw4-w9 and http://www.vimeo.com/12345!")
  = [cp "https://youtu.be/dQw4-w9"; cp "http://www.vimeo.com/12345"].
Proof. vm_compute. reflexivity. Qed.

(** Results come pattern by pattern, not in the order of the text. *)
Example extract_pattern_order :
  extract_video_urls ascii_db
    (cp "https://vimeo.com/7 https://www.youtube.com/watch?v=a_b-c")
  = [cp "https://www.youtube.com/watch?v=a_b-c"; cp "https://vimeo.com/7"].
Proof. vm_compute. reflexivity. Qed.

Example extract_keeps_repeats :
  extract_video_urls ascii_db (cp "https://youtu.be/abc https://youtu.be/abc")
  = [cp "https://youtu.be/abc"; cp "https://youtu.be/abc"].
Proof. vm_compute. reflexivity. Qed.

(** A URL that two patterns of the list match is returned by each. *)
Example extract_with_overlapping_patterns :
  extract_with ascii_db
    [pat_youtu_be; Cat (Str (cp "https://youtu.be/")) (Many1 CWord)]
    (cp "https://youtu.be/abc")
  = [cp "https://youtu.be/abc"; cp "https://youtu.be/abc"].
Proof. vm_compute. reflexivity. Qed.

(** ** Job queue *)

Lemma items_put_all js : forall q, items (put_all js q) = items q ++ js.
Proof.
  induction js as [|j js IH]; intros q; simpl.
  - now rewrite app_nil_r.
  - rewrite IH. simpl. now rewrite <- app_assoc.
Qed.

Lemma unfinished_put_all js : forall q,
  unfinished_tasks (put_all js q) = unfinished_tasks q + List.length js.
Proof.
  induction js as [|j js IH]; intros q; simpl; [lia|].
  rewrite IH. simpl. lia.
Qed.

Lemma get_n_items l : forall q,
  items q = l ->
  get_n (List.length l) q
  = Some (l, {| items := []; unfinished_tasks := unfinished_tasks q |}).
Proof.
  induction l as [|j l IH]; intros [its n] Hq; simpl in *; subst.
  - reflexivity.
  - unfold get. simpl. now rewrite (IH {| items := l; unfinished_tasks := n |}).
Qed.

Lemma get_n_more l : forall q n,
  items q = l -> List.length l < n -> get_n n q = None.
Proof.
  induction l as [|j l IH]; intros [its m] n Hq Hn; simpl in *; subst.
  - destruct n; [lia|]. reflexivity.
  - destruct n; [lia|]. simpl. unfold get. simpl.
    rewrite (IH {| items := l; unfinished_tasks := m |}); [reflexivity|reflexivity|lia].
Qed.

(** C4. The queue is first-in first-out.  [put] is a total function with
    no waiting outcome, and appends the job; [get] waits exactly when the
    queue is empty, and otherwise returns the oldest job; one [put] on a
    fresh queue followed by one [get] returns the very same
    (url, requester) pair; and any [N] puts followed by [N] gets return the
    jobs in the order in which they were put. *)
Theorem queue_fifo :
  (forall j q, items (put j q) = items q ++ [j])
  /\ (forall q, get q = None <-> items q = [])
  /\ (forall q j rest, items q = j :: rest ->
        exists q', get q = Some (j, q') /\ items q' = rest)
  /\ (forall url requester,
        exists q', get (put (url, requester) new_queue) = Some ((url, requester), q')
                   /\ items q' = [])
  /\ (forall js,
        exists q', get_n (List.length js) (put_all js new_queue) = Some (js, q')
                   /\ items q' = []).
Proof.
  repeat split.
  - unfold get. destruct (items q); [reflexivity|discriminate].
  - unfold get. intros ->. reflexivity.
  - intros q j rest H. unfold get. rewrite H. eauto.
  - intros url requester. unfold get. simpl. eauto.
  - intros js. eexists. split.
    + apply get_n_items. now rewrite items_put_all.
    + reflexivity.
Qed.

Lemma queue_fifo_witness :
  let a := (cp "https://youtu.be/a", cp "ann") in
  let q := put (cp "https://youtu.be/b", cp "bob") (put a new_queue) in
  items q = a :: [(cp "https://youtu.be/b", cp "bob")]
  /\ exists q', get q = Some (a, q') /\ items q' = [(cp "https://youtu.be/b", cp "bob")].
Proof.
  intros a q. split; [reflexivity|].
  exact (proj1 (proj2 (proj2 queue_fifo)) q a _ eq_refl).
Defined.

Example queue_three_jobs :
  let a := (cp "https://youtu.be/a", cp "ann") in
  let b := (cp "https://youtu.be/b", cp "bob") in
  option_map fst (get_n 3 (put a (put b (put a new_queue)))) = Some [a; b; a].
Proof. reflexivity. Qed.

(** A fourth [get] after three [put]s has nothing to return: it waits. *)
Example queue_fourth_get_waits :
  let a := (cp "https://youtu.be/a", cp "ann") in
  get_n 4 (put a (put a (put a new_queue))) = None.
Proof. reflexivity. Qed.

(** ** Running a job by cases

    Every proof about [download_and_encode] follows the code: it asks the
    world for each answer in turn and looks at what the job does next. *)

Lemma tool_of_info url : tool_of (info_cmd url) = YtInfo.
Proof. reflexivity. Qed.
Lemma tool_of_download url : tool_of (download_cmd url) = YtDownload.
Proof. reflexivity. Qed.
Lemma tool_of_encoders : tool_of encoders_cmd = FfEncoders.
Proof. reflexivity. Qed.
Lemma tool_of_nvenc i o : tool_of (nvenc_cmd i o) = FfNvenc.
Proof. reflexivity. Qed.
Lemma tool_of_cpu i o : tool_of (cpu_cmd i o) = FfCpu.
Proof. reflexivity. Qed.

Ltac rewrite_tools :=
  rewrite ?tool_of_info, ?tool_of_download, ?tool_of_encoders,
    ?tool_of_nvenc, ?tool_of_cpu.


Opaque cp.
Arguments cp : simpl never.
Arguments exited_zero : simpl never.
Arguments contains : simpl never.
Arguments title_of : simpl never.
Arguments sanitize_title : simpl never.
Arguments strftime : simpl never.
Arguments output_filename : simpl never.
Arguments path_join : simpl never.

Ltac unfold_job :=
  unfold download_and_encode, download_and_encode_body, encode, finish,
    check_nvenc_available, try_except, bind, ret, log,
    datetime_now, mkdir, run, glob, unlink, privmsg.

Ltac split_innermost :=
  match goal with
  | |- context [match ?x with _ => _ end] =>
      lazymatch x with
      | context [match _ with _ => _ end] => fail
      | negb ?b => destruct b eqn:?
      | _ => destruct x eqn:?
      end
  end.

Ltac run_job := unfold_job; repeat (cbn; split_innermost); cbn.

(** The answers of the world have been named: drop their equations. *)
Ltac forget_world :=
  repeat match goal with
    | H : o_mkdir _ _ _ = _ |- _ => clear H
    | H : o_run _ _ _ _ _ = _ |- _ => clear H
    | H : o_glob _ _ _ _ = _ |- _ => clear H
    | H : o_unlink _ _ _ = _ |- _ => clear H
    | H : o_privmsg _ _ _ _ = _ |- _ => clear H
    end.

Ltac tidy :=
  repeat match goal with
    | H : Some _ = Some _ |- _ => injection H as H; subst
    | H : Ok _ = Ok _ |- _ => injection H as H; subst
    | H : forall p, Ok ?a = Ok p -> _ |- _ => specialize (H a eq_refl)
    | H : _ \/ _ |- _ => destruct H
    | H : _ /\ _ |- _ => destruct H
    | H : exists _, _ |- _ => destruct H
    end.

(** Picks the position of an event in a computed trace. *)
Ltac find_event := repeat (try (left; reflexivity); right).

(** Splits a hypothesis [In ev [e1; ...; en]] into its [n] equations. *)
Ltac in_cases H :=
  repeat (destruct H as [H|H]; [try discriminate H|]); try contradiction H.

(** ** Hardware capability probe *)

(** C10. [check_nvenc_available] always returns a boolean and never
    raises; when the encoder listing itself raises, it returns [False],
    and the encode stage then runs the listing and the software encode
    command only, and succeeds as soon as that command exits with zero. *)
Theorem check_nvenc_available_total (O : Oracle) (h : history) :
  (exists b es, check_nvenc_available O h = (Ok b, es)
                /\ b = capable (o_run O h encoders_cmd true None))
  /\ (forall e, o_run O h encoders_cmd true None = Raised e ->
        check_nvenc_available O h
        = (Ok false, [EvRun encoders_cmd true None (Raised e)]))
  /\ (forall e input_file output_path,
        o_run O h encoders_cmd true None = Raised e ->
        exists r res es,
          encode O input_file output_path h = (res, es)
          /\ subprocesses es
             = [(encoders_cmd, Raised e); (cpu_cmd input_file output_path, r)]
          /\ (forall p, r = Ok p -> exited_zero p = true ->
                res = Ok (true, Some output_path))).
Proof.
  split; [|split].
  - run_job; eauto.
  - intros e He. unfold_job. now rewrite He.
  - intros e input_file output_path He.
    unfold_job. rewrite He.
    repeat (cbn; split_innermost); cbn;
      eexists _, _, _; (split; [reflexivity|]); (split; [reflexivity|]);
      intros p [= <-]; congruence.
Qed.

Lemma check_nvenc_available_total_witness :
  o_run listing_raises [] encoders_cmd true None = Raised permission_error
  /\ check_nvenc_available listing_raises []
     = (Ok false, [EvRun encoders_cmd true None (Raised permission_error)]).
Proof.
  split; [reflexivity|].
  exact (proj1 (proj2 (check_nvenc_available_total listing_raises []))
           permission_error eq_refl).
Defined.

(** ** Order of the encode attempts *)

(** C2. In a job whose fetch succeeded the subprocesses run one after the
    other in this order: metadata probe, download, encoder listing, then
    at most one hardware encode, then at most one software encode.  The
    hardware encode is run exactly when the listing of this job reports
    the capability; if it exits with zero the job succeeds and no
    software encode is run.  The software encode is run exactly when the
    listing reports no capability or the hardware encode exited with a
    status other than zero; if it exits with zero the job succeeds,
    otherwise the job fails. *)
Theorem encode_attempts_in_order (db : UnicodeDB) (O : Oracle) (url : str)
    (h : history) (res : result (bool * option str)) (es : list event)
    (input_file : str) :
  download_and_encode db O url h = (res, es) ->
  fetched es input_file ->
  exists info dl listing hw sw output_path,
    subprocesses es
    = [(info_cmd url, Ok info); (download_cmd url, Ok dl); (encoders_cmd, listing)]
      ++ attempt (nvenc_cmd input_file output_path) hw
      ++ attempt (cpu_cmd input_file output_path) sw
    /\ (hw <> None <-> capable listing = true)
    /\ (forall p, hw = Some (Ok p) -> exited_zero p = true ->
          sw = None /\ res = Ok (true, Some output_path))
    /\ (sw <> None <->
        capable listing = false
        \/ exists p, hw = Some (Ok p) /\ exited_zero p = false)
    /\ (forall p, sw = Some (Ok p) -> exited_zero p = true ->
          res = Ok (true, Some output_path))
    /\ (forall r, sw = Some r -> (forall p, r = Ok p -> exited_zero p = false) ->
          res = Ok (false, None)).
Proof.
  intros Hrun [more Hin]. revert Hrun Hin.
  run_job; intros [= <- <-] Hin; cbn in Hin; in_cases Hin;
    injection Hin as -> ->; forget_world.
  all: eexists _, _, _; cbn [subprocesses flat_map app].
  all: lazymatch goal with
    | |- exists hw sw o,
          [_; _; _; (nvenc_cmd _ ?p, ?r1); (cpu_cmd _ _, ?r2)] = _ /\ _ =>
        exists (Some r1), (Some r2), p
    | |- exists hw sw o, [_; _; _; (nvenc_cmd _ ?p, ?r1)] = _ /\ _ =>
        exists (Some r1), None, p
    | |- exists hw sw o, [_; _; _; (cpu_cmd _ ?p, ?r2)] = _ /\ _ =>
        exists None, (Some r2), p
    end; (split; [reflexivity|]).
  all: cbn [capable]; repeat split; intros; subst; tidy; try congruence; eauto.
Qed.

Lemma encode_attempts_in_order_witness :
  let job := download_and_encode ascii_db gpu_breaks (cp "https://youtu.be/abc") [] in
  fetched (snd job) (cp "/app/temp/input_video.mp4")
  /\ exists info dl listing hw sw output_path,
       subprocesses (snd job)
       = [(info_cmd (cp "https://youtu.be/abc"), Ok info);
          (download_cmd (cp "https://youtu.be/abc"), Ok dl);
          (encoders_cmd, listing)]
         ++ attempt (nvenc_cmd (cp "/app/temp/input_video.mp4") output_path) hw
         ++ attempt (cpu_cmd (cp "/app/temp/input_video.mp4") output_path) sw
       /\ (sw <> None <->
           capable listing = false
           \/ exists p, hw = Some (Ok p) /\ exited_zero p = false).
Proof.
  intros job.
  assert (Hf : fetched (snd job) (cp "/app/temp/input_video.mp4")).
  { exists []. vm_compute. find_event. }
  split; [exact Hf|].
  destruct (encode_attempts_in_order ascii_db gpu_breaks (cp "https://youtu.be/abc")
              [] _ _ _ (surjective_pairing job) Hf)
    as (info & dl & listing & hw & sw & output_path & H1 & _ & _ & H4 & _).
  exists info, dl, listing, hw, sw, output_path. split; assumption.
Defined.

(** The listing is read again by every job. *)
Example listing_is_not_cached :
  let url := cp "https://youtu.be/abc" in
  let job1 := snd (download_and_encode ascii_db gpu_taken_away url []) in
  let job2 := snd (download_and_encode ascii_db gpu_taken_away url job1) in
  map tool_of (runs job1) = [YtInfo; YtDownload; FfEncoders; FfNvenc]
  /\ map tool_of (runs job2) = [YtInfo; YtDownload; FfEncoders; FfCpu].
Proof. vm_compute. split; reflexivity. Qed.

(** ** Failure of the fetch stage *)

Ltac eval_tools :=
  cbn [encode_invoked runs flat_map app existsb map];
  unfold is_encode_cmd; rewrite_tools; cbn [orb].

(** C3, as the code has it.  The job fails without starting an encode
    exactly when the metadata probe exits with a status other than zero,
    or the download does, or the directory listing finds no input file,
    or one of the calls of the fetch stage (creating the directory, the
    probe, the download, the listing) raises; and in each of these cases
    the only subprocesses of the job are the probe and the download. *)
Theorem fetch_failure_conditions (db : UnicodeDB) (O : Oracle) (url : str)
    (h : history) (res : result (bool * option str)) (es : list event) :
  download_and_encode db O url h = (res, es) ->
  (failed_before_encoding res es
   <-> probe_failed url es \/ download_failed url es \/ no_input_file es
       \/ fetch_raised url es)
  /\ (probe_failed url es \/ download_failed url es \/ no_input_file es
      \/ fetch_raised url es ->
      res = Ok (false, None)
      /\ Forall (fun cmd => tool_of cmd = YtInfo \/ tool_of cmd = YtDownload)
                (runs es)).
Proof.
  set (causes := probe_failed url es \/ download_failed url es \/ no_input_file es
                 \/ fetch_raised url es).
  intros Hrun.
  enough (G : (failed_before_encoding res es /\ causes
               /\ Forall (fun cmd => tool_of cmd = YtInfo \/ tool_of cmd = YtDownload)
                         (runs es))
              \/ (~ failed_before_encoding res es /\ ~ causes)).
  { destruct G as [(HL & HR & HF)|[HL HR]].
    - split; [tauto|]. intros _. split; [apply HL|exact HF].
    - split; [tauto|]. intros HC. contradiction. }
  subst causes. revert Hrun.
  unfold failed_before_encoding, probe_failed, download_failed, no_input_file,
    fetch_raised.
  run_job; intros [= <- <-]; forget_world.
  all: eval_tools.
  all: first
    [ left; split; [split; reflexivity|]; split;
      [ first
          [ left; eexists; split; [solve [find_event]|assumption]
          | right; left; eexists; split; [solve [find_event]|assumption]
          | right; right; left; solve [find_event]
          | right; right; right; eexists;
            first [ left; solve [find_event]
                  | right; left; solve [find_event]
                  | right; right; left; solve [find_event]
                  | right; right; right; solve [find_event] ] ]
      | repeat (apply Forall_cons; [rewrite_tools; auto|]); apply Forall_nil ]
    | right; split;
      [ intros [H1 H2]; congruence
      | intros [(xp & Hin & Hz)|[(xp & Hin & Hz)|[Hin|(xe & [Hin|[Hin|[Hin|Hin]]])]]];
        cbn in Hin; in_cases Hin; try injection Hin as <-; congruence ] ].
Qed.

Lemma fetch_failure_conditions_witness :
  let url := cp "https://youtu.be/abc" in
  let job := download_and_encode ascii_db nothing_installed url [] in
  fetch_raised url (snd job)
  /\ fst job = Ok (false, None)
  /\ Forall (fun cmd => tool_of cmd = YtInfo \/ tool_of cmd = YtDownload)
            (runs (snd job)).
Proof.
  intros url job.
  assert (Hr : fetch_raised url (snd job)).
  { exists file_not_found. right. left. vm_compute. find_event. }
  split; [exact Hr|].
  apply (proj2 (fetch_failure_conditions ascii_db nothing_installed url [] _ _
                  (surjective_pairing job))).
  right. right. right. exact Hr.
Defined.

(** C3, as the specification states it, fails where no external program
    can be started: the job fails without an encode although no probe or
    download ever exited and no directory was listed. *)
Lemma fetch_fails_without_exit_status :
  ~ fetch_fails_exactly_when ascii_db nothing_installed (cp "https://youtu.be/abc") [].
Proof.
  unfold fetch_fails_exactly_when.
  destruct (download_and_encode ascii_db nothing_installed (cp "https://youtu.be/abc") [])
    as [res es] eqn:E.
  vm_compute in E. injection E as <- <-.
  intros [H _].
  assert (HL : failed_before_encoding (Ok (false, None))
    (snd (download_and_encode ascii_db nothing_installed (cp "https://youtu.be/abc") []))).
  { split; vm_compute; reflexivity. }
  vm_compute in HL.
  destruct (H HL) as [(p & Hin & _)|[(p & Hin & _)|Hin]];
    vm_compute in Hin; in_cases Hin.
Qed.

(** ** Cleanup of the input file *)

Lemma nothing_after_last (es pre post : list event) (x : event) :
  es = pre ++ x :: post -> ~ In x (removelast es) -> post = [].
Proof.
  intros -> Hn. destruct post as [|y post]; [reflexivity|].
  exfalso. apply Hn.
  rewrite removelast_app by discriminate.
  apply in_or_app. right. simpl. now left.
Qed.

(** C8, as the code has it.  A deletion of the input file that raises is
    swallowed without a trace: it is the last event of the job, so no
    log entry follows it, and the job returns success with its output
    path.  The deletion is attempted on the fetched input file, in every
    job that succeeds and in no other. *)
Theorem cleanup_is_best_effort (db : UnicodeDB) (O : Oracle) (url : str)
    (h : history) (res : result (bool * option str)) (es : list event) :
  download_and_encode db O url h = (res, es) ->
  (forall pre f e post,
     es = pre ++ EvUnlink f (Raised e) :: post ->
     post = [] /\ exists output_path, res = Ok (true, Some output_path))
  /\ (forall f r, In (EvUnlink f r) es ->
        fetched es f /\ exists output_path, res = Ok (true, Some output_path))
  /\ (forall output_path, res = Ok (true, Some output_path) ->
        exists f r, In (EvUnlink f r) es).
Proof.
  run_job; intros [= <- <-]; forget_world.
  all: split; [|split].
  all: try (intros pre f xe post Hes; split;
            [ eapply nothing_after_last; [exact Hes|]; cbn [removelast];
              intros Hin; in_cases Hin
            | assert (Hin : In (EvUnlink f (Raised xe))
                              (pre ++ EvUnlink f (Raised xe) :: post))
                by (apply in_or_app; right; left; reflexivity);
              rewrite <- Hes in Hin; in_cases Hin; eauto ]).
  all: try (intros f xr Hin; in_cases Hin; injection Hin as <- <-;
            (split; [eexists; solve [find_event]|eauto])).
  all: intros output_path Hres;
       first [discriminate Hres | eexists _, _; solve [find_event]].
Qed.

Lemma cleanup_is_best_effort_witness :
  let job := download_and_encode ascii_db undeletable_input (cp "https://youtu.be/abc") [] in
  In (EvUnlink (cp "/app/temp/input_video.mp4") (Raised permission_error)) (snd job)
  /\ exists output_path, fst job = Ok (true, Some output_path).
Proof.
  intros job.
  assert (Hin : In (EvUnlink (cp "/app/temp/input_video.mp4") (Raised permission_error))
                   (snd job)).
  { vm_compute. find_event. }
  split; [exact Hin|].
  exact (proj2 (proj1 (proj2 (cleanup_is_best_effort ascii_db undeletable_input
                                (cp "https://youtu.be/abc") [] _ _ (surjective_pairing job)))
                  _ _ Hin)).
Defined.

(** C8, as the specification states it, fails: the deletion raises, the
    job succeeds, and nothing is logged about the deletion. *)
Lemma deletion_failure_is_silent :
  let job := download_and_encode ascii_db undeletable_input (cp "https://youtu.be/abc") [] in
  In (EvUnlink (cp "/app/temp/input_video.mp4") (Raised permission_error)) (snd job)
  /\ ~ deletion_failure_logged (snd job).
Proof.
  intros job. split.
  - vm_compute. find_event.
  - intros (pre & f & e & post & lvl & text & Hes & Hin).
    assert (Hpost : post = []).
    { eapply nothing_after_last; [exact Hes|]. subst job. vm_compute.
      intros H. in_cases H. }
    subst post. contradiction.
Qed.

(** ** Output file name *)

Transparent cp.

Lemma split_on_front sep a b :
  exists front, front <> [] /\ split_on sep (a ++ sep :: b) = front ++ split_on sep b.
Proof.
  induction a as [|c a (front & Hne & IH)]; simpl.
  - rewrite N.eqb_refl. exists [[]]. split; [discriminate|reflexivity].
  - destruct (c =? sep)%N.
    + exists ([] :: front). split; [discriminate|]. now rewrite IH.
    + rewrite IH. destruct front as [|l ls]; [contradiction|].
      exists ((c :: l) :: ls). split; [discriminate|reflexivity].
Qed.

Lemma split_on_no_sep sep s :
  Forall (fun c => c <> sep) s -> split_on sep s = [s].
Proof.
  induction 1 as [|c s Hc _ IH]; simpl; [reflexivity|].
  destruct (N.eqb_spec c sep); [contradiction|]. now rewrite IH.
Qed.

Lemma last_app_nonempty (A : Type) (l1 l2 : list A) (d : A) :
  l2 <> [] -> last (l1 ++ l2) d = last l2 d.
Proof.
  intros Hne. induction l1 as [|x l1 IH]; [reflexivity|].
  simpl. destruct (l1 ++ l2) eqn:E; [|exact IH].
  apply app_eq_nil in E as [_ ->]. contradiction.
Qed.

Lemma basename_path_join dir name :
  Forall (fun c => c <> slash) name -> basename (path_join dir name) = name.
Proof.
  intros Hn. unfold basename, path_join. simpl.
  destruct (split_on_front slash dir name) as (front & _ & ->).
  rewrite (split_on_no_sep _ _ Hn), last_app_nonempty by discriminate.
  reflexivity.
Qed.

Lemma sanitize_title_no_slash db title :
  Forall (fun c => c <> slash) (sanitize_title db title).
Proof.
  unfold sanitize_title. apply Forall_forall. intros c Hc.
  assert (Hin : In c (sub_cset db unsafe_chars underscore title)).
  { rewrite <- (firstn_skipn 50). apply in_or_app. now left. }
  unfold sub_cset in Hin.
  apply in_map_iff in Hin as (x & <- & _). clear Hc.
  destruct (in_cset db unsafe_chars x) eqn:E; [discriminate|].
  intros ->. vm_compute in E. discriminate.
Qed.

Lemma digit_not_slash d : digit d <> slash.
Proof. unfold digit, slash. lia. Qed.

Lemma strftime_no_slash d : Forall (fun c => c <> slash) (strftime d).
Proof.
  unfold strftime, pad2.
  repeat (apply Forall_app; split);
    repeat (apply Forall_cons; [first [apply digit_not_slash | discriminate]|]);
    apply Forall_nil.
Qed.

Lemma output_filename_no_slash db title d :
  Forall (fun c => c <> slash)
         (output_filename (sanitize_title db title) (strftime d)).
Proof.
  unfold output_filename.
  apply Forall_app. split; [apply sanitize_title_no_slash|].
  apply Forall_app. split.
  { repeat (apply Forall_cons; [discriminate|]). apply Forall_nil. }
  apply Forall_app. split; [apply strftime_no_slash|].
  repeat (apply Forall_cons; [discriminate|]). apply Forall_nil.
Qed.

Lemma sanitize_title_length db title :
  List.length (sanitize_title db title) = Nat.min 50 (List.length title).
Proof.
  unfold sanitize_title, sub_cset. now rewrite length_firstn, length_map.
Qed.

Opaque cp.



(** When the job of the example ends, thirteen events later, the clock
    reads 14:43; the name still carries 14:30. *)
Example clock_moves_on :
  let job := download_and_encode ascii_db all_good (cp "https://youtu.be/abc") [] in
  strftime (o_now all_good (snd job)) = cp "03-05-24_14:43"
  /\ fst job = Ok (true, Some (cp "/app/output/My_Video__-03-05-24_14:30-x220.mp4")).
Proof. vm_compute. split; reflexivity. Qed.

(** C7, as the code has it.  For the title "My Video!!" and the time
    03-05-24_14:30 the file name is
    [My_Video__-03-05-24_14:30-x220.mp4]: the space and each of the two
    exclamation marks become an underscore of their own, and nothing is
    cut, the title being shorter than 50 characters (a sanitized title
    has the length of the title, or 50 if the title is longer). *)
Theorem my_video_filename (db : UnicodeDB) :
  strftime (march_5 0) = cp "03-05-24_14:30"
  /\ sanitize_title db (cp "My Video!!") = cp "My_Video__"
  /\ output_filename (sanitize_title db (cp "My Video!!")) (strftime (march_5 0))
     = cp "My_Video__-03-05-24_14:30-x220.mp4"
  /\ (forall title,
        List.length (sanitize_title db title) = Nat.min 50 (List.length title))
  /\ fst (download_and_encode db all_good (cp "https://youtu.be/abc") [])
     = Ok (true, Some (cp "/app/output/My_Video__-03-05-24_14:30-x220.mp4")).
Proof.
  split; [vm_compute; reflexivity|].
  split; [vm_compute; reflexivity|].
  split; [vm_compute; reflexivity|].
  split; [apply sanitize_title_length|].
  vm_compute. reflexivity.
Qed.

(** C7, as the specification states it, fails: the name that the code
    builds is not [My_Video-03-05-24_14:30-x220.mp4]. *)
Lemma my_video_keeps_trailing_underscores :
  output_filename (sanitize_title ascii_db (cp "My Video!!")) (strftime (march_5 0))
  <> cp "My_Video-03-05-24_14:30-x220.mp4".
Proof. vm_compute. discriminate. Qed.

Example long_title_is_cut :
  sanitize_title ascii_db
    (cp "0123456789012345678901234567890123456789012345678901234567890123456789")
  = cp "01234567890123456789012345678901234567890123456789".
Proof. vm_compute. reflexivity. Qed.

(** ** Uniqueness of output names *)

Lemma strftime_length d : List.length (strftime d) = 14.
Proof. reflexivity. Qed.

Lemma app_inj_same_length (a b x y : str) :
  List.length x = List.length y -> a ++ x = b ++ y -> a = b /\ x = y.
Proof.
  intros Hl. revert b. induction a as [|c a IH]; intros [|c' b] H; simpl in H.
  - auto.
  - apply (f_equal (@List.length _)) in H. simpl in H. rewrite length_app in H. lia.
  - apply (f_equal (@List.length _)) in H. simpl in H. rewrite length_app in H. lia.
  - injection H as -> H. destruct (IH _ H) as [-> ->]. auto.
Qed.

Lemma output_filename_inj s1 s2 t1 t2 :
  List.length t1 = List.length t2 ->
  output_filename s1 t1 = output_filename s2 t2 -> s1 = s2 /\ t1 = t2.
Proof.
  unfold output_filename. intros Hl H.
  apply app_inj_same_length in H as [-> H].
  - split; [reflexivity|].
    apply app_inv_head in H. now apply app_inv_tail in H.
  - rewrite !length_app, Hl. reflexivity.
Qed.

Lemma digit_inj a b : digit a = digit b -> a = b.
Proof. unfold digit. lia. Qed.

Lemma two_digits_inj a b :
  digit (a / 10) = digit (b / 10) -> digit (a mod 10) = digit (b mod 10) -> a = b.
Proof.
  intros H1 H2. apply digit_inj in H1, H2.
  rewrite (Nat.div_mod_eq a 10), (Nat.div_mod_eq b 10). lia.
Qed.

Lemma strftime_chars d :
  strftime d
  = [digit (month d / 10); digit (month d mod 10); 45%N;
     digit (day d / 10); digit (day d mod 10); 45%N;
     digit (year d mod 100 / 10); digit (year d mod 100 mod 10); 95%N;
     digit (hour d / 10); digit (hour d mod 10); 58%N;
     digit (minute d / 10); digit (minute d mod 10)].
Proof. reflexivity. Qed.

Lemma strftime_inj d1 d2 :
  strftime d1 = strftime d2 <->
  month d1 = month d2 /\ day d1 = day d2
  /\ year d1 mod 100 = year d2 mod 100
  /\ hour d1 = hour d2 /\ minute d1 = minute d2.
Proof.
  split.
  - rewrite !strftime_chars. intros H.
    pose proof (fun k => f_equal (fun l => nth k l 0%N) H) as Hk.
    pose proof (Hk 0) as A0. pose proof (Hk 1) as A1.
    pose proof (Hk 3) as A3. pose proof (Hk 4) as A4.
    pose proof (Hk 6) as A6. pose proof (Hk 7) as A7.
    pose proof (Hk 9) as A9. pose proof (Hk 10) as A10.
    pose proof (Hk 12) as A12. pose proof (Hk 13) as A13.
    cbn [nth] in *.
    repeat split; apply two_digits_inj; assumption.
  - unfold strftime. intros (-> & -> & -> & -> & ->). reflexivity.
Qed.

(** C9. The file name determines the pair of sanitized title and rendered
    timestamp, and is determined by it; it ends in the fixed suffix
    [-x220.mp4].  Two names differ only if the sanitized titles differ or
    the timestamps differ at the resolution of one minute, and the same
    sanitized title with the same timestamp up to the minute gives the
    same name.  The rendered timestamp is the month, the day, the last
    two digits of the year, the hour and the minute. *)
Theorem output_filename_unique (safe1 safe2 : str) (d1 d2 : datetime) :
  let name1 := output_filename safe1 (strftime d1) in
  let name2 := output_filename safe2 (strftime d2) in
  (name1 = name2 <-> safe1 = safe2 /\ strftime d1 = strftime d2)
  /\ (name1 <> name2 -> safe1 <> safe2 \/ minute_stamp d1 <> minute_stamp d2)
  /\ (safe1 = safe2 -> minute_stamp d1 = minute_stamp d2 -> name1 = name2)
  /\ (strftime d1 = strftime d2 <->
      month d1 = month d2 /\ day d1 = day d2
      /\ year d1 mod 100 = year d2 mod 100
      /\ hour d1 = hour d2 /\ minute d1 = minute d2)
  /\ exists stem, name1 = stem ++ profile_suffix.
Proof.
  intros name1 name2. subst name1 name2.
  assert (Hsame : safe1 = safe2 -> minute_stamp d1 = minute_stamp d2 ->
                  output_filename safe1 (strftime d1) = output_filename safe2 (strftime d2)).
  { intros -> [= Hy Hm Hd HH HM]. f_equal.
    apply strftime_inj. rewrite Hy. auto. }
  split; [|split; [|split; [exact Hsame|split]]].
  - split.
    + intros H.
      refine (@output_filename_inj safe1 safe2 (strftime d1) (strftime d2) _ H).
      reflexivity.
    + intros [-> ->]. reflexivity.
  - intros Hne.
    destruct (str_eq_dec safe1 safe2) as [Hs|Hs]; [|now left].
    right. intros Hst. apply Hne. now apply Hsame.
  - apply strftime_inj.
  - exists (safe1 ++ cp "-" ++ strftime d1).
    unfold output_filename. now rewrite <- !app_assoc.
Qed.

Lemma output_filename_unique_witness :
  let d1 := {| year := 2024; month := 3; day := 5; hour := 14; minute := 30; second := 5 |} in
  let d2 := {| year := 2024; month := 3; day := 5; hour := 14; minute := 30; second := 50 |} in
  minute_stamp d1 = minute_stamp d2
  /\ output_filename (cp "My_Video__") (strftime d1)
     = output_filename (cp "My_Video__") (strftime d2).
Proof.
  intros d1 d2. split; [reflexivity|].
  exact (proj1 (proj2 (proj2 (output_filename_unique (cp "My_Video__") (cp "My_Video__") d1 d2)))
           eq_refl eq_refl).
Defined.

(** One second apart but in different minutes: two names. *)
Example names_across_a_minute :
  let d1 := {| year := 2024; month := 3; day := 5; hour := 14; minute := 30; second := 59 |} in
  let d2 := {| year := 2024; month := 3; day := 5; hour := 14; minute := 31; second := 0 |} in
  output_filename (cp "My_Video__") (strftime d1)
  <> output_filename (cp "My_Video__") (strftime d2).
Proof. vm_compute. discriminate. Qed.

(** The year is written with two digits: a century apart, the same name. *)
Example names_a_century_apart :
  let d1 := {| year := 1924; month := 3; day := 5; hour := 14; minute := 30; second := 0 |} in
  let d2 := {| year := 2024; month := 3; day := 5; hour := 14; minute := 30; second := 0 |} in
  output_filename (cp "My_Video__") (strftime d1)
  = output_filename (cp "My_Video__") (strftime d2).
Proof. vm_compute. reflexivity. Qed.

(** ** Worker loop *)

Lemma notifications_app es1 es2 :
  notifications (es1 ++ es2) = notifications es1 ++ notifications es2.
Proof. apply flat_map_app. Qed.

Transparent cp.
Lemma path_join_output_dir name :
  exists c p, path_join output_dir name = c :: p.
Proof. eexists _, _. reflexivity. Qed.
Opaque cp.

(** The job never raises, sends nothing to the channel, and returns either
    [(False, None)] or [(True, path)] with a path that is not empty. *)
Lemma job_returns db O url h :
  exists r es,
    download_and_encode db O url h = (Ok r, es)
    /\ notifications es = []
    /\ (r = (false, None) \/ exists c p, r = (true, Some (c :: p))).
Proof.
  run_job; eexists _, _; (split; [reflexivity|]); (split; [reflexivity|]).
  all: try (left; reflexivity).
  all: right; destruct (path_join_output_dir
         (output_filename (sanitize_title db (title_of db (stdout a0)))
            (strftime (o_now O h)))) as (c & p & ->); eauto.
Qed.

Lemma job_boundary db O url h e es :
  download_and_encode_body db O url h = (Raised e, es) ->
  download_and_encode db O url h
  = (Ok (false, None),
     es ++ [EvLog ERROR (cp "Exception in download_and_encode: " ++ exn_text e)]).
Proof.
  intros H. unfold download_and_encode, try_except. rewrite H.
  reflexivity.
Qed.

(** Whichever call of the fetch or encode stage raises, the job fails and
    its last log line reports the exception. *)
Lemma raising_call_fails_job db O url h res es :
  download_and_encode db O url h = (res, es) ->
  pipeline_raised es ->
  res = Ok (false, None)
  /\ exists e pre,
       es = pre ++ [EvLog ERROR (cp "Exception in download_and_encode: " ++ exn_text e)].
Proof.
  unfold pipeline_raised.
  run_job; intros [= <- <-]; forget_world.
  all: intros (xe & [(xd & Hin)|[(cmd & xc & xw & Hne & Hin)|(xd & xp & Hin)]]);
       cbn in Hin; in_cases Hin.
  all: try (inversion Hin; subst; congruence).
  all: split; [reflexivity|].
  all: match goal with
       | |- exists e pre, ?l = _ => eexists _, (removelast l)
       end; cbn [removelast app]; reflexivity.
Qed.

Lemma handle_job_outcome db O channel url requester h :
  exists es text,
    try_except (handle_job db O channel (url, requester))
      (fun e => log ERROR (cp "Error in video processing: " ++ exn_text e)) h
    = (Ok tt, es)
    /\ notifications es = [(channel, text)]
    /\ (fst (download_and_encode db O url (h ++ [EvLog INFO (processing_line url requester)]))
        = Ok (false, None) -> text = failed_message url requester).
Proof.
  unfold handle_job, try_except, bind, log. cbn.
  fold (processing_line url requester).
  destruct (job_returns db O url (h ++ [EvLog INFO (processing_line url requester)]))
    as (r & es1 & -> & Hn & [->|(c & p & ->)]); cbn; unfold privmsg, bind, log; cbn.
  all: match goal with
       | |- context [o_privmsg ?o ?x ?c ?m] => destruct (o_privmsg o x c m) as [[]|?]
       end; cbn; eexists _, _; (split; [reflexivity|]).
  all: change (EvLog INFO (processing_line url requester) :: ?l)
         with ([EvLog INFO (processing_line url requester)] ++ l).
  all: rewrite ?app_assoc, ?notifications_app, Hn; cbn.
  all: split; [reflexivity|]; try (intros _; reflexivity); intros [=].
Qed.

Lemma iterate_job db O channel h q url requester rest :
  items q = (url, requester) :: rest -> queue_ok q ->
  exists es q' text,
    iterate db O channel h q = Looped es q'
    /\ items q' = rest /\ queue_ok q'
    /\ notifications es = [(channel, text)]
    /\ (fst (download_and_encode db O url (h ++ [EvLog INFO (processing_line url requester)]))
        = Ok (false, None) -> text = failed_message url requester).
Proof.
  intros Hq Hok. unfold queue_ok in Hok. rewrite Hq in Hok. simpl in Hok.
  unfold iterate, get. rewrite Hq.
  destruct (handle_job_outcome db O channel url requester h)
    as (es & text & -> & Hn & Hf).
  unfold task_done. cbn [unfinished_tasks items].
  destruct (unfinished_tasks q) as [|n] eqn:En; [lia|].
  eexists _, _, text. split; [reflexivity|]. cbn.
  repeat split; auto. unfold queue_ok. cbn. lia.
Qed.

Lemma step_ok db O channel b a :
  crashed b = None -> queue_ok (queue b) ->
  crashed (step db O channel b a) = None /\ queue_ok (queue (step db O channel b a)).
Proof.
  intros Hc Hok. destruct a as [j|]; cbn.
  - split; [assumption|]. unfold queue_ok in *. cbn. rewrite length_app. cbn. lia.
  - rewrite Hc. destruct (items (queue b)) as [|[url requester] rest] eqn:Hq.
    + unfold iterate, get. rewrite Hq. auto.
    + destruct (iterate_job db O channel (hist b) _ _ _ _ Hq Hok)
        as (es & q' & text & -> & _ & Hok' & _). auto.
Qed.

Lemma run_bot_ok db O channel schedule : forall b,
  crashed b = None -> queue_ok (queue b) ->
  crashed (run_bot db O channel b schedule) = None
  /\ queue_ok (queue (run_bot db O channel b schedule)).
Proof.
  induction schedule as [|a schedule IH]; intros b Hc Hok; [auto|].
  destruct (step_ok db O channel b a Hc Hok) as [Hc' Hok'].
  exact (IH _ Hc' Hok').
Qed.

(** C1. An exception that leaves the body of [download_and_encode] is
    caught at the end of the job and turned into the result
    [(False, None)], and so is every exception raised by a call of the
    fetch or encode stage (the encoder listing apart, which handles its
    own); an iteration of the worker loop that finds a job
    takes it from the queue, sends exactly one notification to the
    channel, the failure message whenever the job returned
    [(False, None)], and comes back to the head of the loop, whatever the
    world answers; hence no sequence of enqueues and iterations ends the
    worker, and after any such sequence a job put on the empty queue is
    handled by the next iteration. *)
Theorem worker_survives_every_job (db : UnicodeDB) (O : Oracle) (channel : str) :
  (forall url h e es,
     download_and_encode_body db O url h = (Raised e, es) ->
     download_and_encode db O url h
     = (Ok (false, None),
        es ++ [EvLog ERROR (cp "Exception in download_and_encode: " ++ exn_text e)]))
  /\ (forall url h res es,
        download_and_encode db O url h = (res, es) -> pipeline_raised es ->
        res = Ok (false, None))
  /\ (forall h q url requester rest,
        items q = (url, requester) :: rest -> queue_ok q ->
        exists es q' text,
          iterate db O channel h q = Looped es q'
          /\ items q' = rest /\ queue_ok q'
          /\ notifications es = [(channel, text)]
          /\ (fst (download_and_encode db O url
                     (h ++ [EvLog INFO (processing_line url requester)]))
              = Ok (false, None) -> text = failed_message url requester))
  /\ (forall b schedule,
        crashed b = None -> queue_ok (queue b) ->
        crashed (run_bot db O channel b schedule) = None
        /\ queue_ok (queue (run_bot db O channel b schedule)))
  /\ (forall b schedule url requester,
        crashed b = None -> queue_ok (queue b) ->
        let b1 := run_bot db O channel b schedule in
        let b2 := run_bot db O channel b1 [Enqueue (url, requester); Iterate] in
        items (queue b1) = [] ->
        crashed b2 = None /\ items (queue b2) = []
        /\ exists es text,
             hist b2 = hist b1 ++ es /\ notifications es = [(channel, text)]
             /\ (fst (download_and_encode db O url
                        (hist b1 ++ [EvLog INFO (processing_line url requester)]))
                 = Ok (false, None) -> text = failed_message url requester)).
Proof.
  split; [intros; now apply job_boundary|].
  split; [intros url h res es Hrun Hr;
          exact (proj1 (raising_call_fails_job db O url h res es Hrun Hr))|].
  split; [intros; now apply iterate_job|].
  split; [intros; now apply run_bot_ok|].
  intros b schedule url requester Hc Hok b1 b2 Hempty.
  destruct (run_bot_ok db O channel schedule b Hc Hok) as [Hc1 Hok1].
  fold b1 in Hc1, Hok1.
  assert (Hq : items (put (url, requester) (queue b1)) = (url, requester) :: []).
  { cbn. now rewrite Hempty. }
  assert (Hok2 : queue_ok (put (url, requester) (queue b1))).
  { unfold queue_ok in *. cbn. rewrite length_app. cbn. lia. }
  destruct (iterate_job db O channel (hist b1) _ _ _ _ Hq Hok2)
    as (es & q' & text & Hit & Hrest & _ & Hn & Hf).
  subst b2. cbn. rewrite Hc1, Hit. cbn.
  split; [reflexivity|]. split; [assumption|].
  exists es, text. auto.
Qed.

Lemma worker_survives_every_job_witness :
  let schedule :=
    [Enqueue (cp "https://youtu.be/abc", cp "ann"); Iterate;
     Enqueue (cp "https://vimeo.com/42", cp "bob"); Iterate] in
  crashed new_bot = None /\ queue_ok (queue new_bot)
  /\ crashed (run_bot ascii_db nothing_installed (cp "#videos") new_bot schedule) = None.
Proof.
  intros schedule.
  assert (Hok : queue_ok (queue new_bot)) by (unfold queue_ok; simpl; lia).
  split; [reflexivity|]. split; [exact Hok|].
  exact (proj1 (proj1 (proj2 (proj2 (proj2 (worker_survives_every_job ascii_db
                                              nothing_installed (cp "#videos")))))
                  new_bot schedule eq_refl Hok)).
Defined.

(** Both jobs of that run fail in the fetch stage, where [subprocess.run]
    raises; each is reported, in the order of arrival. *)
Example two_failures_two_reports :
  notifications
    (hist (run_bot ascii_db nothing_installed (cp "#videos") new_bot
             [Enqueue (cp "https://youtu.be/abc", cp "ann"); Iterate;
              Enqueue (cp "https://vimeo.com/42", cp "bob"); Iterate]))
  = [(cp "#videos", failed_message (cp "https://youtu.be/abc") (cp "ann"));
     (cp "#videos", failed_message (cp "https://vimeo.com/42") (cp "bob"))].
Proof. vm_compute. reflexivity. Qed.

(** An encoder that cannot even be started: the job fails, is reported,
    and the job behind it in the queue is processed and succeeds. *)
Example job_after_a_crash :
  let answers := fun h cmd =>
    match tool_of cmd with
    | YtInfo => Ok (proc 0 my_video_stdout)
    | FfCpu => if existsb is_encode_cmd (runs h)
               then Ok (proc 0 []) else Raised file_not_found
    | _ => Ok (proc 0 [])
    end in
  let world :=
    {| o_now := fun _ => march_5 0;
       o_mkdir := fun _ _ => Ok tt;
       o_run := fun h cmd _ _ => answers h cmd;
       o_glob := fun _ _ _ => Ok [cp "/app/temp/input_video.mp4"];
       o_unlink := fun _ _ => Ok tt;
       o_privmsg := fun _ _ _ => Ok tt |} in
  let b := run_bot ascii_db world (cp "#videos") new_bot
             [Enqueue (cp "https://youtu.be/abc", cp "ann");
              Enqueue (cp "https://youtu.be/abc", cp "bob");
              Iterate; Iterate] in
  crashed b = None
  /\ notifications (hist b)
     = [(cp "#videos", failed_message (cp "https://youtu.be/abc") (cp "ann"));
        (cp "#videos",
         ready_message
           (cp "http://10.0.0.2:8084/My_Video__-03-05-24_14:30-x220.mp4")
           (cp "bob"))].
Proof. vm_compute. split; reflexivity. Qed.

(* ================================================================== *)
(** * Further properties of the code *)

(** ** More on the URL extractor *)

Transparent cp.

Lemma scan_complete db r u : forall pre post,
  fullmatch db r u = true -> scan db r (pre ++ u ++ post) 0 <> [].
Proof.
  intros pre post Hm.
  assert (Hat : exists y, match_at db r (u ++ post) = Some y).
  { apply fullmatch_iff in Hm.
    exact (rmatch_complete db r u Hm post Some post eq_refl). }
  induction pre as [|c pre IH].
  - destruct Hat as [y Hy]. simpl app.
    destruct (u ++ post) as [|c s] eqn:E; cbn [scan].
    + rewrite Hy. discriminate.
    + rewrite Hy. discriminate.
  - change ((c :: pre) ++ u ++ post) with (c :: pre ++ u ++ post). cbn [scan].
    destruct (match_at db r (c :: pre ++ u ++ post)); [discriminate|exact IH].
Qed.

(** X1. The extractor returns the empty list exactly when no piece of
    the message is matched in full by a configured pattern: a message
    that contains a video URL never goes unnoticed. *)
Theorem extract_empty_iff (db : UnicodeDB) (message : str) :
  extract_video_urls db message = [] <->
  (forall u p, substring u message -> In p url_patterns ->
     fullmatch db p u = false).
Proof.
  unfold extract_video_urls. rewrite extract_with_flat_map. split.
  - intros Hnil u p (pre & post & ->) Hp.
    destruct (fullmatch db p u) eqn:Hm; [|reflexivity].
    exfalso. apply (scan_complete db p u pre post Hm).
    destruct (findall db p (pre ++ u ++ post)) as [|x l] eqn:E; [exact E|].
    assert (Hin : In x (flat_map (fun pattern => findall db pattern (pre ++ u ++ post))
                          url_patterns)).
    { apply in_flat_map. exists p. split; [exact Hp|]. rewrite E. now left. }
    rewrite Hnil in Hin. contradiction.
  - intros Hnone.
    destruct (flat_map (fun pattern => findall db pattern message) url_patterns)
      as [|x l] eqn:E; [reflexivity|].
    assert (Hin : In x (flat_map (fun pattern => findall db pattern message)
                          url_patterns)) by (rewrite E; now left).
    apply in_flat_map in Hin as (p & Hp & Hx).
    destruct (scan_sound db p message 0 x Hx) as [Hs Hm].
    rewrite (Hnone x p Hs Hp) in Hm. discriminate.
Qed.

Lemma http_host_shape db www host c u :
  Matches db (http_host www (Cat (Str host) (Many1 c))) u ->
  exists (s w : bool) x tail,
    (w = true -> www = true)
    /\ u = cp "http" ++ (if s then cp "s" else []) ++ cp "://"
           ++ (if w then cp "www." else []) ++ host ++ x :: tail
    /\ in_cset db c x = true
    /\ Forall (fun y => in_cset db c y = true) tail.
Proof.
  unfold http_host, opt_s, opt_www. intros H.
  inversion H as [| |a b u1 v1 H1 H2| | |]; subst; clear H.
  inversion H1; subst; clear H1.
  inversion H2 as [| |a b u2 v2 H3 H4| | |]; subst; clear H2.
  inversion H4 as [| |a b u3 v3 H5 H6| | |]; subst; clear H4.
  inversion H5; subst; clear H5.
  assert (Hs : exists s : bool, u2 = if s then cp "s" else []).
  { inversion H3 as [| | |a u' H'|a|]; subst.
    - inversion H'; subst. now exists true.
    - now exists false. }
  destruct Hs as [s ->]. clear H3.
  assert (Hrest : exists (w : bool) x tail,
             (w = true -> www = true)
             /\ v3 = (if w then cp "www." else []) ++ host ++ x :: tail
             /\ in_cset db c x = true
             /\ Forall (fun y => in_cset db c y = true) tail).
  { assert (Hhost : forall v, Matches db (Cat (Str host) (Many1 c)) v ->
              exists x tail, v = host ++ x :: tail /\ in_cset db c x = true
                /\ Forall (fun y => in_cset db c y = true) tail).
    { intros v Hv. inversion Hv as [| |a b h1 h2 G1 G2| | |]; subst.
      inversion G1; subst. inversion G2; subst. eauto. }
    destruct www.
    - inversion H6 as [| |a b w1 w2 G1 G2| | |]; subst.
      destruct (Hhost _ G2) as (x & tail & -> & Hx & Ht).
      inversion G1 as [| | |a u' H'|a|]; subst.
      + inversion H'; subst. exists true, x, tail. auto.
      + exists false, x, tail. split; [discriminate|]. auto.
    - destruct (Hhost _ H6) as (x & tail & -> & Hx & Ht).
      exists false, x, tail. split; [discriminate|]. auto. }
  destruct Hrest as (w & x & tail & Hw & -> & Hx & Ht).
  exists s, w, x, tail. auto.
Qed.

(** What every configured pattern is made of: whether [www.] may come
    first, the host and path literal, and the set of the last repetition. *)
Lemma url_patterns_parts p :
  In p url_patterns ->
  exists www host c,
    p = http_host www (Cat (Str host) (Many1 c))
    /\ In (www, host, c)
         [(true, cp "youtube.com/watch?v=", word_or_hyphen);
          (false, cp "youtu.be/", word_or_hyphen);
          (true, cp "vimeo.com/", CDigit);
          (true, cp "dailymotion.com/video/", word_or_hyphen);
          (true, cp "twitch.tv/videos/", CDigit)].
Proof.
  intros [<-|[<-|[<-|[<-|[<-|[]]]]]]; eexists _, _, _;
    (split; [reflexivity|]); simpl; tauto.
Qed.

(** X2. Every extracted URL begins with [http://] or [https://] and is at
    least 17 characters long; in particular it never begins with a
    hyphen, so the downloader cannot take it for an option. *)
Theorem extracted_url_has_scheme (db : UnicodeDB) (message u : str) :
  In u (extract_video_urls db message) ->
  ((exists tail, u = cp "http://" ++ tail) \/ (exists tail, u = cp "https://" ++ tail))
  /\ 17 <= List.length u.
Proof.
  unfold extract_video_urls. rewrite extract_with_flat_map.
  intros Hin. apply in_flat_map in Hin as (p & Hp & Hu).
  destruct (scan_sound db p message 0 u Hu) as [_ Hm].
  apply fullmatch_iff in Hm.
  destruct (url_patterns_parts p Hp) as (www & host & c & -> & Hparts).
  destruct (http_host_shape db www host c u Hm) as (s & w & x & tail & _ & -> & _ & _).
  split.
  - destruct s; [right|left]; eexists; reflexivity.
  - simpl in Hparts.
    destruct Hparts as [E|[E|[E|[E|[E|[]]]]]]; injection E as _ <- _;
      destruct s, w; rewrite !length_app; simpl; lia.
Qed.

Lemma extracted_url_has_scheme_witness :
  In (cp "https://youtu.be/dQw4-w9")
     (extract_video_urls ascii_db (cp "see https://youtu.be/dQw4-w9 now"))
  /\ 17 <= List.length (cp "https://youtu.be/dQw4-w9").
Proof.
  assert (H : In (cp "https://youtu.be/dQw4-w9")
                (extract_video_urls ascii_db (cp "see https://youtu.be/dQw4-w9 now"))).
  { vm_compute. now left. }
  split; [exact H|].
  exact (proj2 (extracted_url_has_scheme ascii_db _ _ H)).
Defined.

(** X3. No text is matched in full by two of the configured patterns: with
    the patterns of bot.py one occurrence of a URL gives one job. *)
Theorem url_patterns_disjoint (db : UnicodeDB) (u : str) (p1 p2 : regex) :
  In p1 url_patterns -> In p2 url_patterns ->
  fullmatch db p1 u = true -> fullmatch db p2 u = true ->
  p1 = p2.
Proof.
  intros Hp1 Hp2 H1 H2.
  apply fullmatch_iff in H1, H2.
  destruct (url_patterns_parts p1 Hp1) as (www1 & host1 & c1 & -> & Q1).
  destruct (url_patterns_parts p2 Hp2) as (www2 & host2 & c2 & -> & Q2).
  destruct (http_host_shape db www1 host1 c1 u H1)
    as (s1 & w1 & x1 & t1 & _ & E1 & _ & _).
  destruct (http_host_shape db www2 host2 c2 u H2)
    as (s2 & w2 & x2 & t2 & _ & E2 & _ & _).
  clear H1 H2 Hp1 Hp2. rewrite E1 in E2. clear E1.
  simpl in Q1, Q2.
  destruct Q1 as [Q1|[Q1|[Q1|[Q1|[Q1|[]]]]]]; injection Q1 as <- <- <-;
  destruct Q2 as [Q2|[Q2|[Q2|[Q2|[Q2|[]]]]]]; injection Q2 as <- <- <-;
  try reflexivity;
  exfalso; destruct s1, w1, s2, w2; vm_compute in E2; discriminate E2.
Qed.

Lemma url_patterns_disjoint_witness :
  fullmatch ascii_db pat_vimeo (cp "https://vimeo.com/42") = true
  /\ pat_vimeo = pat_vimeo.
Proof.
  split; [reflexivity|].
  apply (url_patterns_disjoint ascii_db (cp "https://vimeo.com/42"));
    try reflexivity; simpl; tauto.
Defined.

Lemma scan_positions db r : forall s skip u,
  In u (scan db r s skip) ->
  exists pre post, s = pre ++ u ++ post /\ match_at db r (u ++ post) = Some post.
Proof.
  induction s as [|c s IH]; intros skip u Hin; cbn [scan] in Hin.
  - destruct skip; [|contradiction].
    destruct (match_at db r []) as [rest|] eqn:E; [|contradiction].
    destruct Hin as [<-|[]].
    destruct (match_at_fullmatch db r [] rest E) as (v & Hv & _).
    symmetry in Hv. apply app_eq_nil in Hv as [-> ->].
    exists [], []. split; [reflexivity|exact E].
  - assert (Htail : forall n, In u (scan db r s n) ->
      exists pre post, c :: s = pre ++ u ++ post
                       /\ match_at db r (u ++ post) = Some post).
    { intros n Hn. destruct (IH _ _ Hn) as (pre & post & -> & Hm).
      exists (c :: pre), post. auto. }
    destruct skip as [|n]; [|eauto].
    destruct (match_at db r (c :: s)) as [rest|] eqn:E; [|eauto].
    destruct Hin as [<-|Hin]; [|eauto].
    destruct (match_at_fullmatch db r (c :: s) rest E) as (v & Hv & _).
    rewrite (firstn_match (c :: s) v rest Hv).
    exists [], rest. split; [exact Hv|]. now rewrite <- Hv.
Qed.

Lemma many_total db c : forall s, many db c s Some <> None.
Proof.
  induction s as [|y s IH]; simpl; [discriminate|].
  destruct (in_cset db c y); [|discriminate].
  destruct (many db c s Some); [discriminate|contradiction].
Qed.

Lemma many_stops db c : forall s rest,
  many db c s Some = Some rest -> stops_before db c rest.
Proof.
  induction s as [|y s IH]; intros rest H; simpl in H.
  - injection H as <-. exact I.
  - destruct (in_cset db c y) eqn:Ey.
    + destruct (many db c s Some) as [r|] eqn:Em.
      * injection H as <-. now apply IH.
      * exfalso. exact (many_total db c s Em).
    + injection H as <-. exact Ey.
Qed.

Lemma last_class_stops db r c :
  last_class r = Some c ->
  forall s rest, rmatch db r s Some = Some rest -> stops_before db c rest.
Proof.
  revert c. induction r as [l|c'|a _ b IHb|a _|c']; intros c Hc s rest H;
    simpl in Hc; try discriminate.
  - simpl in H.
    destruct (rmatch_sound db a s _ rest H) as (u & rest' & _ & _ & Hb).
    exact (IHb c Hc rest' rest Hb).
  - injection Hc as <-. simpl in H.
    destruct s as [|y s]; [discriminate|].
    destruct (in_cset db c' y); [|discriminate].
    exact (many_stops db c' s rest H).
Qed.

(** X4. An extracted URL is never cut short: the character that follows it
    in the message, if there is one, is not accepted by the last
    repetition of the pattern that found it ([[\w-]] or [\d]). *)
Theorem extracted_url_is_maximal (db : UnicodeDB) (message u : str) :
  In u (extract_video_urls db message) ->
  exists p c pre post,
    In p url_patterns /\ last_class p = Some c
    /\ (c = word_or_hyphen \/ c = CDigit)
    /\ message = pre ++ u ++ post
    /\ fullmatch db p u = true
    /\ stops_before db c post.
Proof.
  unfold extract_video_urls. rewrite extract_with_flat_map.
  intros Hin. apply in_flat_map in Hin as (p & Hp & Hu).
  destruct (scan_sound db p message 0 u Hu) as [_ Hm].
  destruct (scan_positions db p message 0 u Hu) as (pre & post & Hmsg & Hat).
  assert (Hc : exists c, last_class p = Some c /\ (c = word_or_hyphen \/ c = CDigit)).
  { destruct Hp as [<-|[<-|[<-|[<-|[<-|[]]]]]]; eexists; split;
      try reflexivity; auto. }
  destruct Hc as (c & Hc & Hcc).
  exists p, c, pre, post. repeat split; auto.
  exact (last_class_stops db p c Hc (u ++ post) post Hat).
Qed.

Lemma extracted_url_is_maximal_witness :
  In (cp "https://vimeo.com/42")
     (extract_video_urls ascii_db (cp "https://vimeo.com/42abc"))
  /\ exists p c pre post,
       In p url_patterns /\ last_class p = Some c
       /\ cp "https://vimeo.com/42abc" = pre ++ cp "https://vimeo.com/42" ++ post
       /\ stops_before ascii_db c post.
Proof.
  assert (H : In (cp "https://vimeo.com/42")
                (extract_video_urls ascii_db (cp "https://vimeo.com/42abc"))).
  { vm_compute. now left. }
  split; [exact H|].
  destruct (extracted_url_is_maximal ascii_db _ _ H)
    as (p & c & pre & post & H1 & H2 & _ & H4 & _ & H6).
  exists p, c, pre, post. auto.
Defined.

(** ** More on titles and file names *)

Lemma underscore_is_safe db : in_cset db unsafe_chars underscore = false.
Proof. reflexivity. Qed.

Lemma sub_unsafe_safe db title :
  Forall (fun c => in_cset db unsafe_chars c = false)
         (sub_cset db unsafe_chars underscore title).
Proof.
  unfold sub_cset. apply Forall_forall. intros c Hc.
  apply in_map_iff in Hc as (x & <- & _).
  destruct (in_cset db unsafe_chars x) eqn:E; [apply underscore_is_safe|exact E].
Qed.

Lemma sub_unsafe_id db s :
  Forall (fun c => in_cset db unsafe_chars c = false) s ->
  sub_cset db unsafe_chars underscore s = s.
Proof.
  unfold sub_cset. induction 1 as [|x s Hx _ IH]; cbn [map]; [reflexivity|].
  now rewrite Hx, IH.
Qed.

Lemma Forall_firstn (A : Type) (P : A -> Prop) n : forall l,
  Forall P l -> Forall P (firstn n l).
Proof.
  induction n as [|n IH]; intros l H; [constructor|].
  destruct H; simpl; constructor; auto.
Qed.

(** X5. A sanitized title consists of word characters, hyphens,
    underscores and dots only, has at most 50 characters, and sanitizing
    it again changes nothing. *)
Theorem sanitize_title_safe (db : UnicodeDB) (title : str) :
  Forall (fun c => in_cset db unsafe_chars c = false) (sanitize_title db title)
  /\ List.length (sanitize_title db title) <= 50
  /\ sanitize_title db (sanitize_title db title) = sanitize_title db title.
Proof.
  assert (Hsafe : Forall (fun c => in_cset db unsafe_chars c = false)
                         (sanitize_title db title)).
  { unfold sanitize_title. apply Forall_firstn, sub_unsafe_safe. }
  assert (Hlen : List.length (sanitize_title db title) <= 50).
  { unfold sanitize_title. rewrite length_firstn. lia. }
  split; [exact Hsafe|]. split; [exact Hlen|].
  unfold sanitize_title at 1. rewrite (sub_unsafe_id db _ Hsafe).
  now apply firstn_all2.
Qed.

Lemma lstrip_split db s :
  exists ws, s = ws ++ lstrip db s /\ Forall (fun c => py_isspace db c = true) ws.
Proof.
  induction s as [|c s (ws & Hs & Hw)]; simpl.
  - exists []. auto.
  - destruct (py_isspace db c) eqn:E.
    + exists (c :: ws). simpl. split; [now f_equal|]. constructor; auto.
    + exists []. auto.
Qed.

Lemma lstrip_head db s :
  match lstrip db s with
  | [] => Forall (fun c => py_isspace db c = true) s
  | c :: _ => py_isspace db c = false
  end.
Proof.
  induction s as [|c s IH]; simpl; [constructor|].
  destruct (py_isspace db c) eqn:E; [|exact E].
  destruct (lstrip db s); [constructor; auto|exact IH].
Qed.

Lemma lstrip_all_space db s :
  Forall (fun c => py_isspace db c = true) s -> lstrip db s = [].
Proof.
  induction 1 as [|c s Hc _ IH]; simpl; [reflexivity|]. now rewrite Hc.
Qed.

Lemma rstrip_split db t :
  exists ws, t = rstrip db t ++ ws /\ Forall (fun c => py_isspace db c = true) ws.
Proof.
  unfold rstrip. destruct (lstrip_split db (rev t)) as (ws & Hs & Hw).
  exists (rev ws). split.
  - rewrite <- rev_app_distr, <- Hs. symmetry. apply rev_involutive.
  - now apply Forall_rev.
Qed.

Lemma strip_head db s :
  match strip db s with
  | [] => Forall (fun c => py_isspace db c = true) s
  | c :: _ => py_isspace db c = false
  end.
Proof.
  unfold strip.
  destruct (rstrip_split db (lstrip db s)) as (ws & Ht & Hw).
  pose proof (lstrip_head db s) as Hh.
  destruct (rstrip db (lstrip db s)) as [|c r] eqn:E.
  - simpl in Ht. rewrite Ht in Hh.
    destruct ws as [|w ws]; [exact Hh|].
    inversion Hw; subst. congruence.
  - rewrite Ht in Hh. exact Hh.
Qed.

Lemma strip_all_space db s :
  Forall (fun c => py_isspace db c = true) s -> strip db s = [].
Proof.
  intros H. unfold strip, rstrip. now rewrite (lstrip_all_space db s H).
Qed.

Lemma split_on_head sep s :
  exists l ls, split_on sep s = l :: ls
               /\ Forall (fun c => c <> sep) l
               /\ (l = [] -> s = [] \/ exists s', s = sep :: s')
               /\ (forall c l', l = c :: l' -> exists s', s = c :: s').
Proof.
  induction s as [|c s (l & ls & E & Hl & Hn & Hc)]; simpl.
  - exists [], []. repeat split; auto. discriminate.
  - destruct (N.eqb_spec c sep) as [->|Hne].
    + exists [], (split_on sep s). repeat split; eauto. discriminate.
    + rewrite E. exists (c :: l), ls. repeat split; auto.
      * discriminate.
      * intros c' l' [= <- _]. eauto.
Qed.

Lemma newline_is_space db : py_isspace db newline = true.
Proof. reflexivity. Qed.

(** X6. The title is a single line that does not begin with white space;
    it is empty exactly when the metadata probe printed nothing but white
    space, and the file name is then [-{timestamp}-x220.mp4]: the
    fallback title ["video"] of the code is never used. *)
Theorem title_of_edge_cases (db : UnicodeDB) (out : str) :
  Forall (fun c => c <> newline) (title_of db out)
  /\ match title_of db out with
     | [] => True
     | c :: _ => py_isspace db c = false
     end
  /\ (title_of db out = [] <-> Forall (fun c => py_isspace db c = true) out)
  /\ (Forall (fun c => py_isspace db c = true) out ->
      forall timestamp,
        output_filename (sanitize_title db (title_of db out)) timestamp
        = cp "-" ++ timestamp ++ profile_suffix).
Proof.
  unfold title_of.
  pose proof (strip_head db out) as Hh.
  pose proof (strip_all_space db out) as Hall.
  remember (strip db out) as t eqn:Ht. clear Ht.
  destruct (split_on_head newline t) as (l & ls & E & Hl & Hn & Hc).
  rewrite E.
  assert (Hempty : l = [] <-> Forall (fun c => py_isspace db c = true) out).
  { split.
    - intros ->. destruct (Hn eq_refl) as [->|[s' ->]]; [exact Hh|].
      rewrite newline_is_space in Hh. discriminate.
    - intros Hsp. rewrite (Hall Hsp) in E. simpl in E. congruence. }
  split; [exact Hl|]. split; [|split; [exact Hempty|]].
  - destruct l as [|c l']; [exact I|].
    destruct (Hc c l' eq_refl) as [s' ->]. exact Hh.
  - intros Hsp timestamp. apply Hempty in Hsp. subst l. reflexivity.
Qed.

Lemma title_of_edge_cases_witness :
  Forall (fun c => py_isspace ascii_db c = true) (cp "  " ++ [newline])
  /\ output_filename (sanitize_title ascii_db (title_of ascii_db (cp "  " ++ [newline])))
       (cp "03-05-24_14:30")
     = cp "-03-05-24_14:30-x220.mp4".
Proof.
  assert (H : Forall (fun c => py_isspace ascii_db c = true) (cp "  " ++ [newline])).
  { repeat constructor. }
  split; [exact H|].
  exact (proj2 (proj2 (proj2 (title_of_edge_cases ascii_db (cp "  " ++ [newline]))))
           H (cp "03-05-24_14:30")).
Defined.

(** ** More on the capability probe *)

Lemma contains_eq needle hay :
  contains needle hay
  = match strip_prefix needle hay with
    | Some _ => true
    | None => match hay with [] => false | _ :: hay' => contains needle hay' end
    end.
Proof. destruct hay; reflexivity. Qed.

Lemma contains_iff_substring needle hay :
  contains needle hay = true <-> substring needle hay.
Proof.
  split.
  - induction hay as [|c hay IH]; rewrite contains_eq.
    + destruct (strip_prefix needle []) as [rest|] eqn:E;
        [|intros H; discriminate H].
      intros _. apply strip_prefix_Some in E. exists [], rest. exact E.
    + destruct (strip_prefix needle (c :: hay)) as [rest|] eqn:E.
      * intros _. apply strip_prefix_Some in E. exists [], rest. exact E.
      * intros H. destruct (IH H) as (pre & post & ->). now exists (c :: pre), post.
  - intros (pre & post & ->). induction pre as [|c pre IH].
    + simpl app. rewrite contains_eq, strip_prefix_app. reflexivity.
    + change ((c :: pre) ++ needle ++ post) with (c :: pre ++ needle ++ post).
      rewrite contains_eq.
      destruct (strip_prefix needle (c :: pre ++ needle ++ post));
        [reflexivity|exact IH].
Qed.

(** X15. [check_nvenc_available] answers [True] exactly when the encoder
    listing returned and the text [h264_nvenc] occurs somewhere in its
    standard output; the exit status of the listing and its standard
    error play no part. *)
Theorem nvenc_check_reads_stdout_only (O : Oracle) (h : history)
    (res : result bool) (es : list event) :
  check_nvenc_available O h = (res, es) ->
  exists b,
    res = Ok b
    /\ (b = true <->
        exists p, o_run O h encoders_cmd true None = Ok p
                  /\ substring (cp "h264_nvenc") (stdout p)).
Proof.
  unfold check_nvenc_available, try_except, bind, run, ret. cbn.
  destruct (o_run O h encoders_cmd true None) as [p|e] eqn:E; cbn;
    intros [= <- <-]; eexists; (split; [reflexivity|]).
  - rewrite contains_iff_substring. split.
    + intros Hs. exists p. auto.
    + intros (p' & [= <-] & Hs). exact Hs.
  - split; [discriminate|]. intros (p' & [=] & _).
Qed.

Lemma nvenc_check_reads_stdout_only_witness :
  let world :=
    scripted march_5
      (fun _ => Ok {| returncode := 1;
                      stdout := cp "error near h264_nvenc";
                      stderr := cp "broken" |})
      (Ok []) (Ok tt) in
  check_nvenc_available world [] = (fst (check_nvenc_available world []),
                                    snd (check_nvenc_available world []))
  /\ fst (check_nvenc_available world []) = Ok true.
Proof.
  intros world. split; [apply surjective_pairing|].
  destruct (nvenc_check_reads_stdout_only world [] _ _
              (surjective_pairing (check_nvenc_available world [])))
    as (b & Hb & _).
  rewrite Hb. vm_compute in Hb. injection Hb as <-. reflexivity.
Defined.

(** ** More on the job *)

Opaque cp.

(** X7. The subprocesses of a job are, in this order, one of six
    sequences: none, the probe, the probe and the download, or these two
    and the encoder listing followed by the hardware encode, by the
    hardware and the software encode, or by the software encode.  So a
    job starts at most five processes, none of them twice, and never an
    encoder before the probe and the download have run. *)
Theorem job_subprocess_shapes (db : UnicodeDB) (O : Oracle) (url : str)
    (h : history) (res : result (bool * option str)) (es : list event) :
  download_and_encode db O url h = (res, es) ->
  In (map tool_of (runs es))
     [[];
      [YtInfo];
      [YtInfo; YtDownload];
      [YtInfo; YtDownload; FfEncoders; FfNvenc];
      [YtInfo; YtDownload; FfEncoders; FfNvenc; FfCpu];
      [YtInfo; YtDownload; FfEncoders; FfCpu]].
Proof.
  run_job; intros [= <- <-]; forget_world;
    cbn [runs flat_map app map]; rewrite_tools; solve [find_event].
Qed.

Lemma job_subprocess_shapes_witness :
  let job := download_and_encode ascii_db gpu_breaks (cp "https://youtu.be/abc") [] in
  download_and_encode ascii_db gpu_breaks (cp "https://youtu.be/abc") []
  = (fst job, snd job)
  /\ In (map tool_of (runs (snd job)))
        [[];
         [YtInfo];
         [YtInfo; YtDownload];
         [YtInfo; YtDownload; FfEncoders; FfNvenc];
         [YtInfo; YtDownload; FfEncoders; FfNvenc; FfCpu];
         [YtInfo; YtDownload; FfEncoders; FfCpu]].
Proof.
  intros job. split; [apply surjective_pairing|].
  exact (job_subprocess_shapes ascii_db gpu_breaks (cp "https://youtu.be/abc") []
           (fst job) (snd job) (surjective_pairing job)).
Defined.

(** X8. A job returns success exactly when it has logged no line at the
    level ERROR: every failing path of [download_and_encode] logs one,
    and no succeeding path does. *)
Theorem success_iff_no_error_log (db : UnicodeDB) (O : Oracle) (url : str)
    (h : history) (res : result (bool * option str)) (es : list event) :
  download_and_encode db O url h = (res, es) ->
  ((exists path, res = Ok (true, Some path))
   <-> (forall text, ~ In (EvLog ERROR text) es)).
Proof.
  run_job; intros [= <- <-]; forget_world; split.
  all: try solve [intros _ text Hin; cbn in Hin; in_cases Hin].
  all: try solve [intros _; eexists; reflexivity].
  all: try solve [intros (path & [=])].
  all: intros Hno; exfalso; eapply Hno; solve [find_event].
Qed.

Lemma success_iff_no_error_log_witness :
  let job := download_and_encode ascii_db gpu_breaks (cp "https://youtu.be/abc") [] in
  (exists path, fst job = Ok (true, Some path))
  /\ forall text, ~ In (EvLog ERROR text) (snd job).
Proof.
  intros job.
  assert (H : exists path, fst job = Ok (true, Some path)).
  { eexists. vm_compute. reflexivity. }
  split; [exact H|].
  exact (proj1 (success_iff_no_error_log ascii_db gpu_breaks (cp "https://youtu.be/abc")
                  [] (fst job) (snd job) (surjective_pairing job)) H).
Defined.

Lemma output_filename_length db title d :
  List.length (output_filename (sanitize_title db title) (strftime d))
  = Nat.min 50 (List.length title) + 24.
Proof.
  unfold output_filename. rewrite !length_app, sanitize_title_length.
  rewrite strftime_length. reflexivity.
Qed.

(** X9. Whatever the title of the video, every encode command of a job
    reads the first file of the directory listing and writes to
    [/app/output/{name}], where [name] contains no slash and has at most
    74 characters: a title cannot direct the output elsewhere. *)
Theorem encode_output_is_confined (db : UnicodeDB) (O : Oracle) (url : str)
    (h : history) (res : result (bool * option str)) (es : list event)
    (cmd : list str) :
  download_and_encode db O url h = (res, es) ->
  In cmd (runs es) -> is_encode_cmd cmd = true ->
  exists input_file name,
    (cmd = nvenc_cmd input_file (path_join output_dir name)
     \/ cmd = cpu_cmd input_file (path_join output_dir name))
    /\ fetched es input_file
    /\ Forall (fun c => c <> slash) name
    /\ List.length name <= 74.
Proof.
  run_job; intros [= <- <-]; forget_world.
  all: cbn [runs flat_map app]; intros Hin; in_cases Hin; subst cmd.
  all: unfold is_encode_cmd; rewrite_tools; intros Henc; try discriminate Henc.
  all: eexists _, _; split; [first [left; reflexivity|right; reflexivity]|].
  all: split; [eexists; solve [find_event]|].
  all: split; [apply output_filename_no_slash|].
  all: rewrite output_filename_length; lia.
Qed.

Lemma encode_output_is_confined_witness :
  let job := download_and_encode ascii_db all_good (cp "https://youtu.be/abc") [] in
  let out := cp "/app/output/My_Video__-03-05-24_14:30-x220.mp4" in
  In (nvenc_cmd (cp "/app/temp/input_video.mp4") out) (runs (snd job))
  /\ exists input_file name,
       (nvenc_cmd (cp "/app/temp/input_video.mp4") out
          = nvenc_cmd input_file (path_join output_dir name)
        \/ nvenc_cmd (cp "/app/temp/input_video.mp4") out
          = cpu_cmd input_file (path_join output_dir name))
       /\ Forall (fun c => c <> slash) name.
Proof.
  intros job out.
  assert (Hin : In (nvenc_cmd (cp "/app/temp/input_video.mp4") out) (runs (snd job))).
  { vm_compute. find_event. }
  split; [exact Hin|].
  destruct (encode_output_is_confined ascii_db all_good (cp "https://youtu.be/abc") []
              (fst job) (snd job) _ (surjective_pairing job) Hin eq_refl)
    as (input_file & name & H1 & _ & H3 & _).
  exists input_file, name. auto.
Defined.

(** ** More on the worker loop *)

Lemma report_text_reports url requester r :
  reports (url, requester) (report_text url requester r).
Proof.
  unfold reports, report_text.
  destruct r as [[[|] [[|c p]|]]|e]; simpl; eauto.
Qed.

Lemma no_notification es :
  notifications es = [] -> forall t m r, ~ In (EvPrivmsg t m r) es.
Proof.
  induction es as [|ev es IH]; intros Hn t m r Hin; [contradiction|].
  destruct Hin as [->|Hin]; [simpl in Hn; discriminate Hn|].
  destruct ev; simpl in Hn; try discriminate Hn; exact (IH Hn t m r Hin).
Qed.

(** What one pass through lines 95-112 adds to the trace. *)
Lemma handle_job_report db O channel url requester h :
  let h1 := h ++ [EvLog INFO (processing_line url requester)] in
  let job := download_and_encode db O url h1 in
  let text := report_text url requester (fst job) in
  exists r lvl line,
    try_except (handle_job db O channel (url, requester))
      (fun e => log ERROR (cp "Error in video processing: " ++ exn_text e)) h
    = (Ok tt,
       EvLog INFO (processing_line url requester)
       :: snd job ++ [EvPrivmsg channel text r; EvLog lvl line])
    /\ notifications (snd job) = []
    /\ (forall e, r = Raised e ->
          lvl = ERROR /\ line = cp "Error in video processing: " ++ exn_text e).
Proof.
  intros h1 job text. subst text job h1.
  unfold handle_job, try_except, bind, log. cbn.
  destruct (job_returns db O url (h ++ [EvLog INFO (processing_line url requester)]))
    as (r & es1 & -> & Hn & [->|(c & p & ->)]); cbn; unfold privmsg, bind, log; cbn.
  all: match goal with
       | |- context [o_privmsg ?o ?x ?c ?m] => destruct (o_privmsg o x c m) as [[]|?]
       end; cbn; rewrite <- ?app_assoc; cbn [app];
       eexists _, _, _; (split; [reflexivity|]); (split; [exact Hn|]);
       intros e' [=]; subst; split; reflexivity.
Qed.

Lemma iterate_report db O channel h q url requester rest n :
  items q = (url, requester) :: rest -> unfinished_tasks q = S n ->
  let h1 := h ++ [EvLog INFO (processing_line url requester)] in
  let job := download_and_encode db O url h1 in
  let text := report_text url requester (fst job) in
  exists r lvl line,
    iterate db O channel h q
    = Looped (EvLog INFO (processing_line url requester)
              :: snd job ++ [EvPrivmsg channel text r; EvLog lvl line])
             {| items := rest; unfinished_tasks := n |}
    /\ notifications (snd job) = []
    /\ (forall e, r = Raised e ->
          lvl = ERROR /\ line = cp "Error in video processing: " ++ exn_text e).
Proof.
  intros Hq Hn h1 job text.
  destruct (handle_job_report db O channel url requester h)
    as (r & lvl & line & E & H1 & H2).
  exists r, lvl, line. split; [|split; assumption].
  unfold iterate, get. rewrite Hq, E. unfold task_done. cbn. rewrite Hn.
  reflexivity.
Qed.


(** X10. Starting from a fresh bot, after any sequence of enqueues and
    loop iterations the worker is alive, the counter of unfinished tasks
    equals the number of waiting jobs, and the jobs enqueued so far are,
    in the order of their arrival, those that have been reported --
    each once, to the channel, with a report that names its requester --
    followed by those still waiting: no job is lost, reported twice or
    overtaken. *)
Theorem every_job_reported_once (db : UnicodeDB) (O : Oracle) (channel : str)
    (schedule : list action) :
  let b := run_bot db O channel new_bot schedule in
  crashed b = None
  /\ unfinished_tasks (queue b) = List.length (items (queue b))
  /\ exists done texts,
       enqueued schedule = done ++ items (queue b)
       /\ notifications (hist b) = map (fun t => (channel, t)) texts
       /\ Forall2 reports done texts.
Proof.
  enough (G : forall sched b enq,
    (crashed b = None
     /\ unfinished_tasks (queue b) = List.length (items (queue b))
     /\ exists done texts,
          enq = done ++ items (queue b)
          /\ notifications (hist b) = map (fun t => (channel, t)) texts
          /\ Forall2 reports done texts) ->
    let b' := run_bot db O channel b sched in
    crashed b' = None
    /\ unfinished_tasks (queue b') = List.length (items (queue b'))
    /\ exists done texts,
         enq ++ enqueued sched = done ++ items (queue b')
         /\ notifications (hist b') = map (fun t => (channel, t)) texts
         /\ Forall2 reports done texts).
  { apply (G schedule new_bot []). repeat split.
    exists [], []. repeat split. constructor. }
  induction sched as [|a sched IH]; intros b enq (Hc & Hu & done & texts & He & Hn & Hr).
  - simpl. rewrite app_nil_r. eauto 10.
  - change (run_bot db O channel b (a :: sched))
      with (run_bot db O channel (step db O channel b a) sched).
    destruct a as [j|].
    + change (enqueued (Enqueue j :: sched)) with ([j] ++ enqueued sched).
      rewrite app_assoc. apply IH. cbn.
      split; [exact Hc|]. split; [rewrite length_app, Hu; simpl; lia|].
      exists done, texts. rewrite He, <- app_assoc. auto.
    + change (enqueued (Iterate :: sched)) with (enqueued sched).
      apply IH. cbn. rewrite Hc.
      destruct (items (queue b)) as [|[url requester] rest] eqn:Hq.
      * unfold iterate, get. rewrite Hq. cbn. rewrite Hq. eauto 10.
      * simpl in Hu.
        destruct (iterate_report db O channel (hist b) (queue b) url requester rest _
                    Hq Hu) as (r & lvl & line & -> & Hjob & _).
        cbn. split; [reflexivity|]. split; [reflexivity|].
        exists (done ++ [(url, requester)]),
               (texts ++ [report_text url requester
                            (fst (download_and_encode db O url
                               (hist b ++ [EvLog INFO (processing_line url requester)])))]).
        split; [rewrite He, <- app_assoc; reflexivity|]. split.
        -- rewrite notifications_app, Hn, map_app. f_equal.
           change (EvLog INFO (processing_line url requester) :: ?x)
             with ([EvLog INFO (processing_line url requester)] ++ x).
           rewrite !notifications_app, Hjob. reflexivity.
        -- apply Forall2_app; [exact Hr|].
           constructor; [apply report_text_reports|constructor].
Qed.

Example three_jobs_two_iterations :
  let a := (cp "https://youtu.be/a", cp "ann") in
  let b := (cp "https://youtu.be/b", cp "bob") in
  let c := (cp "https://youtu.be/c", cp "cy") in
  let bot := run_bot ascii_db nothing_installed (cp "#videos") new_bot
               [Enqueue a; Enqueue b; Iterate; Enqueue c; Iterate; Iterate] in
  notifications (hist bot)
  = [(cp "#videos", failed_message (fst a) (snd a));
     (cp "#videos", failed_message (fst b) (snd b));
     (cp "#videos", failed_message (fst c) (snd c))]
  /\ items (queue bot) = [] /\ unfinished_tasks (queue bot) = 0.
Proof. vm_compute. auto. Qed.

Lemma job_result_shape db O url h :
  fst (download_and_encode db O url h) = Ok (false, None)
  \/ exists title d,
       fst (download_and_encode db O url h)
       = Ok (true, Some (path_join output_dir
                           (output_filename (sanitize_title db title) (strftime d)))).
Proof.
  run_job; eauto.
Qed.

Lemma queue_ok_counter q j rest :
  items q = j :: rest -> queue_ok q -> exists n, unfinished_tasks q = S n.
Proof.
  unfold queue_ok. intros -> H. simpl in H.
  destruct (unfinished_tasks q) as [|n]; [lia|eauto].
Qed.

Lemma notifications_of_iteration es t target text r lvl line :
  notifications es = [] ->
  notifications (EvLog INFO t :: es ++ [EvPrivmsg target text r; EvLog lvl line])
  = [(target, text)].
Proof.
  intros H. change (EvLog INFO t :: ?x) with ([EvLog INFO t] ++ x).
  rewrite !notifications_app, H. reflexivity.
Qed.

(** X11. The report of an iteration follows the result of the job: a job
    that failed is reported with the failure message naming its URL, a
    job that succeeded with the ready message, whose link is
    [http://10.0.0.2:8084/] followed by the name of the output file, a
    single path component. *)
Theorem report_follows_result (db : UnicodeDB) (O : Oracle) (channel : str)
    (h : history) (q : Queue) (url requester : str) (rest : list job) :
  items q = (url, requester) :: rest -> queue_ok q ->
  let job := download_and_encode db O url
               (h ++ [EvLog INFO (processing_line url requester)]) in
  exists es q',
    iterate db O channel h q = Looped es q'
    /\ ((fst job = Ok (false, None)
         /\ notifications es = [(channel, failed_message url requester)])
        \/ (exists name,
              fst job = Ok (true, Some (path_join output_dir name))
              /\ Forall (fun c => c <> slash) name
              /\ notifications es
                 = [(channel,
                     ready_message (cp "http://10.0.0.2:8084/" ++ name) requester)])).
Proof.
  intros Hq Hok job.
  destruct (queue_ok_counter q _ _ Hq Hok) as [n Hn].
  destruct (iterate_report db O channel h q url requester rest n Hq Hn)
    as (r & lvl & line & Hit & Hjob & _).
  eexists _, _. split; [exact Hit|].
  rewrite (notifications_of_iteration _ _ _ _ _ _ _ Hjob).
  fold job.
  destruct (job_result_shape db O url
              (h ++ [EvLog INFO (processing_line url requester)]))
    as [E|(title & d & E)]; fold job in E; rewrite E.
  - left. auto.
  - right. eexists. split; [reflexivity|].
    split; [apply output_filename_no_slash|].
    destruct (path_join_output_dir
                (output_filename (sanitize_title db title) (strftime d)))
      as (c & p & Hp).
    unfold report_text. rewrite Hp, <- Hp.
    now rewrite basename_path_join by apply output_filename_no_slash.
Qed.

Lemma report_follows_result_witness :
  let q := put (cp "https://youtu.be/abc", cp "ann") new_queue in
  queue_ok q
  /\ exists es q',
       iterate ascii_db all_good (cp "#videos") [] q = Looped es q'
       /\ notifications es
          = [(cp "#videos",
              ready_message
                (cp "http://10.0.0.2:8084/My_Video__-03-05-24_14:31-x220.mp4")
                (cp "ann"))].
Proof.
  intros q.
  assert (Hok : queue_ok q) by (unfold queue_ok; simpl; lia).
  split; [exact Hok|].
  destruct (report_follows_result ascii_db all_good (cp "#videos") [] q
              (cp "https://youtu.be/abc") (cp "ann") [] eq_refl Hok)
    as (es & q' & Hit & _).
  exists es, q'. split; [exact Hit|].
  vm_compute in Hit. injection Hit as <- _. reflexivity.
Defined.

(** X12. When the report itself cannot be sent, the iteration still comes
    back to the head of the loop: the exception of [privmsg] is logged
    as the last event, and the job has left the queue, so it is neither
    retried nor reported later. *)
Theorem failed_report_is_survived (db : UnicodeDB) (O : Oracle) (channel : str)
    (h : history) (q : Queue) (url requester : str) (rest : list job) :
  items q = (url, requester) :: rest -> queue_ok q ->
  exists es q',
    iterate db O channel h q = Looped es q'
    /\ items q' = rest
    /\ forall t m e,
         In (EvPrivmsg t m (Raised e)) es ->
         exists pre,
           es = pre ++ [EvPrivmsg t m (Raised e);
                        EvLog ERROR (cp "Error in video processing: " ++ exn_text e)].
Proof.
  intros Hq Hok.
  destruct (queue_ok_counter q _ _ Hq Hok) as [n Hn].
  destruct (iterate_report db O channel h q url requester rest n Hq Hn)
    as (r & lvl & line & Hit & Hjob & Hr).
  eexists _, _. split; [exact Hit|]. split; [reflexivity|].
  intros t m e [Hin|Hin]; [discriminate Hin|].
  apply in_app_or in Hin as [Hin|[Hin|[Hin|[]]]].
  - exfalso. exact (no_notification _ Hjob t m (Raised e) Hin).
  - injection Hin as <- <- ->.
    destruct (Hr e eq_refl) as [-> ->].
    eexists (_ :: _). reflexivity.
  - discriminate Hin.
Qed.

Lemma failed_report_is_survived_witness :
  let q := put (cp "https://youtu.be/abc", cp "ann") new_queue in
  queue_ok q
  /\ exists es q',
       iterate ascii_db not_connected (cp "#videos") [] q = Looped es q'
       /\ items q' = []
       /\ exists pre m,
            es = pre ++ [EvPrivmsg (cp "#videos") m (Raised server_not_connected);
                         EvLog ERROR (cp "Error in video processing: Not connected.")].
Proof.
  intros q.
  assert (Hok : queue_ok q) by (unfold queue_ok; simpl; lia).
  split; [exact Hok|].
  destruct (failed_report_is_survived ascii_db not_connected (cp "#videos") [] q
              (cp "https://youtu.be/abc") (cp "ann") [] eq_refl Hok)
    as (es & q' & Hit & Hrest & Hlast).
  exists es, q'. split; [exact Hit|]. split; [exact Hrest|].
  assert (Hin : exists m, In (EvPrivmsg (cp "#videos") m (Raised server_not_connected)) es).
  { vm_compute in Hit. injection Hit as <- _. eexists. find_event. }
  destruct Hin as [m Hin]. destruct (Hlast _ _ _ Hin) as [pre Hpre].
  exists pre, m. exact Hpre.
Defined.

(** ** The message handlers *)

Lemma notifications_log lvl t es :
  notifications (EvLog lvl t :: es) = notifications es.
Proof. reflexivity. Qed.

Lemma notifications_privmsg t m r es :
  notifications (EvPrivmsg t m r :: es) = (t, m) :: notifications es.
Proof. reflexivity. Qed.

Lemma enqueue_urls_spec O target found nick : forall urls h q res es q',
  enqueue_urls O target found nick urls h q = (res, es, q') ->
  exists k,
    k <= List.length urls
    /\ q' = put_all (map (fun u => (u, nick)) (firstn k urls)) q
    /\ match res with
       | Ok _ => k = List.length urls /\ notifications es = map (ack target) urls
       | Raised _ =>
           k < List.length urls
           /\ notifications es = map (ack target) (firstn (S k) urls)
       end.
Proof.
  induction urls as [|url urls IH]; intros h q res es q' H; cbn [enqueue_urls] in H.
  - injection H as <- <- <-. exists 0. simpl. auto.
  - unfold bind, log, privmsg in H. cbn in H.
    match type of H with
    | context [o_privmsg ?o ?x ?t ?m] => destruct (o_privmsg o x t m) as [[]|e] eqn:E
    end.
    + match type of H with
      | context [enqueue_urls ?a ?b ?c ?d ?e ?f ?g] =>
          destruct (enqueue_urls a b c d e f g) as [[res1 es1] q1] eqn:E1
      end.
      injection H as <- <- <-.
      destruct (IH _ _ _ _ _ E1) as (k & Hk & -> & Hres).
      exists (S k). split; [simpl; lia|]. split; [reflexivity|].
      destruct res1.
      * destruct Hres as [-> Hn]. split; [reflexivity|].
        rewrite notifications_log, notifications_privmsg, Hn. reflexivity.
      * destruct Hres as [Hlt Hn]. split; [simpl; lia|].
        rewrite notifications_log, notifications_privmsg, Hn. reflexivity.
    + injection H as <- <- <-. exists 0. simpl. split; [lia|].
      split; [reflexivity|]. split; [lia|reflexivity].
Qed.

Lemma put_all_counts js : forall q,
  items (put_all js q) = items q ++ js
  /\ unfinished_tasks (put_all js q) = unfinished_tasks q + List.length js.
Proof.
  induction js as [|j js IH]; intros q; simpl.
  - rewrite app_nil_r. split; [reflexivity|lia].
  - destruct (IH (put j q)) as [-> ->]. simpl. rewrite <- app_assoc.
    split; [reflexivity|lia].
Qed.

(** X13. [on_pubmsg] handles the URLs of a message in the order in which
    the extractor returns them: each is acknowledged on the channel and
    then put on the queue with the nick of the sender.  If an
    acknowledgement raises, the URLs before it have been queued, this one
    and the later ones have not; a message without a URL changes
    nothing. *)
Theorem on_pubmsg_enqueues (db : UnicodeDB) (O : Oracle) (channel : str)
    (message nick : str) (h : history) (q : Queue)
    (res : result unit) (es : list event) (q' : Queue) :
  on_pubmsg db O channel message nick h q = (res, es, q') ->
  let urls := extract_video_urls db message in
  exists k,
    k <= List.length urls
    /\ items q' = items q ++ map (fun u => (u, nick)) (firstn k urls)
    /\ unfinished_tasks q' = unfinished_tasks q + k
    /\ (res = Ok tt ->
        k = List.length urls /\ notifications es = map (ack channel) urls)
    /\ (forall e, res = Raised e ->
        k < List.length urls
        /\ notifications es = map (ack channel) (firstn (S k) urls))
    /\ (urls = [] -> res = Ok tt /\ es = [] /\ q' = q)
    /\ (queue_ok q -> queue_ok q').
Proof.
  intros H. cbv zeta. unfold on_pubmsg in H.
  set (urls := extract_video_urls db message) in *.
  destruct (enqueue_urls_spec O channel (found_public nick) nick urls h q res es q' H)
    as (k & Hk & Hq & Hres).
  exists k. split; [exact Hk|].
  destruct (put_all_counts (map (fun u => (u, nick)) (firstn k urls)) q) as [Hi Hu].
  rewrite <- Hq in Hi, Hu. rewrite length_map, length_firstn in Hu.
  split; [exact Hi|]. split; [lia|].
  split; [intros ->; exact Hres|].
  split; [intros e ->; exact Hres|].
  split.
  - intros Hnil. rewrite Hnil in H. cbn in H. injection H as <- <- <-. auto.
  - unfold queue_ok. rewrite Hi, Hu, length_app, length_map, length_firstn. lia.
Qed.

Lemma on_pubmsg_enqueues_witness :
  let r := on_pubmsg ascii_db all_good (cp "#videos")
             (cp "look https://vimeo.com/42 and https://youtu.be/abc") (cp "ann")
             [] new_queue in
  queue_ok new_queue
  /\ queue_ok (snd r)
  /\ items (snd r) = [(cp "https://youtu.be/abc", cp "ann");
                      (cp "https://vimeo.com/42", cp "ann")].
Proof.
  intros r.
  assert (Hok : queue_ok new_queue) by (unfold queue_ok; simpl; lia).
  assert (E : r = (fst (fst r), snd (fst r), snd r)) by (destruct r as [[? ?] ?]; reflexivity).
  destruct (on_pubmsg_enqueues ascii_db all_good (cp "#videos") _ _ _ _ _ _ _ E)
    as (k & _ & _ & _ & _ & _ & _ & Hq).
  split; [exact Hok|]. split; [exact (Hq Hok)|].
  vm_compute. reflexivity.
Defined.

(** X14. [on_privmsg] acknowledges to the sender of the private message
    and queues the jobs under the sender's nick; the report of
    [process_videos] on such a job nevertheless goes to the channel. *)
Theorem private_request_public_report (db : UnicodeDB) (O : Oracle)
    (channel : str) (message nick : str) (h : history) (q : Queue)
    (res : result unit) (es : list event) (q' : Queue) :
  on_privmsg db O message nick h q = (res, es, q') ->
  Forall (fun n => fst n = nick) (notifications es)
  /\ (exists k,
        items q' = items q
                   ++ map (fun u => (u, nick))
                          (firstn k (extract_video_urls db message)))
  /\ (forall h' q0 url rest,
        items q0 = (url, nick) :: rest -> queue_ok q0 ->
        exists es' q1 text,
          iterate db O channel h' q0 = Looped es' q1
          /\ notifications es' = [(channel, text)]
          /\ reports (url, nick) text).
Proof.
  intros H. unfold on_privmsg in H.
  destruct (enqueue_urls_spec O nick (found_private nick) nick _ h q res es q' H)
    as (k & Hk & Hq & Hres).
  split; [|split].
  - assert (Hall : forall l, Forall (fun n : str * str => fst n = nick)
                               (map (ack nick) l)).
    { intros l. apply Forall_forall. intros n Hn.
      apply in_map_iff in Hn as (u & <- & _). reflexivity. }
    destruct res; destruct Hres as [_ ->]; apply Hall.
  - exists k. rewrite Hq. apply put_all_counts.
  - intros h' q0 url rest Hq0 Hok.
    destruct (queue_ok_counter q0 _ _ Hq0 Hok) as [n Hn].
    destruct (iterate_report db O channel h' q0 url nick rest n Hq0 Hn)
      as (r & lvl & line & Hit & Hjob & _).
    eexists _, _, _. split; [exact Hit|].
    split; [exact (notifications_of_iteration _ _ _ _ _ _ _ Hjob)|].
    apply report_text_reports.
Qed.

Lemma private_request_public_report_witness :
  let r := on_privmsg ascii_db all_good
             (cp "https://youtu.be/abc") (cp "ann") [] new_queue in
  notifications (snd (fst r)) = [(cp "ann", processing_message (cp "https://youtu.be/abc"))]
  /\ queue_ok (snd r)
  /\ exists es' q1 text,
       iterate ascii_db all_good (cp "#videos") (snd (fst r)) (snd r) = Looped es' q1
       /\ notifications es' = [(cp "#videos", text)].
Proof.
  intros r.
  assert (E : r = (fst (fst r), snd (fst r), snd r)) by (destruct r as [[? ?] ?]; reflexivity).
  assert (Hok : queue_ok (snd r)) by (unfold queue_ok; vm_compute; lia).
  split; [vm_compute; reflexivity|]. split; [exact Hok|].
  destruct (proj2 (proj2 (private_request_public_report ascii_db all_good (cp "#videos")
                            _ _ _ _ _ _ _ E))
              (snd (fst r)) (snd r) (cp "https://youtu.be/abc") [] eq_refl Hok)
    as (es' & q1 & text & H1 & H2 & _).
  exists es', q1, text. auto.
Defined.
